(** * milk: handler-chain engine, response resolution, router and parameters

    A shallow embedding of the Go package in [src/]:
    - [src/error.go]            the error model ([Error], [ValidationError], [FieldError]);
    - [src/context.go]          the request context built on an exported struct
                                ([Errors], [Context.Err], [Context.Next], [Context.Stop],
                                [Context.respond], [responseWriter]);
    - [src/unnamed/part_003]    the request context behind the [Context] interface
                                ([ErrorSlice], [context.Next], [context.do],
                                [context.SetResult], [context.SetPagination],
                                [context.respond], [responseWriter]);
    - [src/unnamed/part_001], [src/unnamed/part_002]   [params.Get] / [Params.Get]
                                and the typed getters built on it;
    - [src/unnamed/part_000]    the value bag ([Values]);
    - [src/router.go]           [Router], [createContext], [middleware], [route], [wrap];
    - [src/error.go], second part   the handlers [AllowAllCORS] and [CORSPreflight].

    The two request contexts are two editions of the same engine; they are
    embedded as one development indexed by [Variant], every difference
    between the two files being a [match] on the variant. *)

From Stdlib Require Import String Ascii List ZArith Lia Bool Arith DecimalString
  Sorted.
Import ListNotations.

Set Warnings "-register-all".

Local Open Scope string_scope.
Local Open Scope list_scope.

(** String concatenation, kept apart from list concatenation. *)
Infix "+++" := String.append (right associativity, at level 60).

(** The line feed written by [buf.WriteByte('\n')] and by the [\n] of the
    format strings. *)
Definition LF : string := String (ascii_of_nat 10) EmptyString.

(** [fmt.Sprintf("%d", n)] on an [int]. *)
Definition Sprintf_d (n : Z) : string := NilZero.string_of_int (Z.to_int n).

(** Net/http status constants used by the package. *)
Definition StatusOK : Z := 200.
Definition StatusInternalServerError : Z := 500.
Definition StatusUnauthorized : Z := 401.
Definition StatusForbidden : Z := 403.
Definition StatusNotFound : Z := 404.
Definition StatusConflict : Z := 409.
Definition StatusBadRequest : Z := 400.

(** [const StatusValidationError = 422] (error.go:8). *)
Definition StatusValidationError : Z := 422.

(** ** error.go: the error model *)

(** [type Error struct { StatusCode int; Message string }].  Values of type
    [*Error] are modelled by the struct they point to. *)
Record Error : Type := NewError { StatusCode : Z; Message : string }.

Definition ErrUnauthorized : Error := NewError StatusUnauthorized "".
Definition ErrForbidden : Error := NewError StatusForbidden "".
Definition ErrNotFound : Error := NewError StatusNotFound "".
Definition ErrConflict : Error := NewError StatusConflict "".
Definition ErrBadRequest : Error := NewError StatusBadRequest "".

(** [func (this *Error) Error() string] (error.go:40). *)
Definition Error_Error (this : Error) : string :=
  "API Error (" +++ Sprintf_d (StatusCode this) +++ "): " +++ Message this.

Section ErrorModel.

(** Go values of type [interface{}] that handler code supplies (results,
    the [Data] of a field error). *)
Variable V : Type.

(** [type FieldError struct] (error.go:71); [Data] is [None] for a nil
    interface. *)
Record FieldError : Type := mkFieldError {
  FieldName : string;
  ErrorCode : string;
  FieldMessage : string;
  Data : option V
}.

(** [type ValidationError struct { Errors []*FieldError }] (error.go:44). *)
Record ValidationError : Type := mkValidationError {
  Errors : list FieldError
}.

(** [NewValidationError] (error.go:48). *)
Definition NewValidationError : ValidationError := mkValidationError [].

(** [AddErrorDetailed] with the hint already formatted, and [AddError]
    (error.go:58-65). *)
Definition AddErrorDetailed (this : ValidationError) (key errorCode : string)
    (data : option V) (hint : string) : ValidationError :=
  mkValidationError (Errors this ++ [mkFieldError key errorCode hint data]).

Definition AddError (this : ValidationError) (key errorCode : string)
    : ValidationError :=
  AddErrorDetailed this key errorCode None "".

Definition HasErrors (this : ValidationError) : bool :=
  Nat.ltb 0 (length (Errors this)).

(** A value of Go's [error] interface, by dynamic type: [*Error],
    [*ValidationError], the slice type [Errors] (context.go:15, called
    [ErrorSlice] in part_003:81), or any other implementation, of which
    only the text returned by its [Error()] method matters here. *)
Inductive error : Type :=
| ErrorPtr (apierr : Error)
| ValidationErrorPtr (verr : ValidationError)
| ErrorsVal (errs : list error)
| OtherError (msg : string).

(** [func (this Errors) Error() string] (context.go:17-33, identical to
    [ErrorSlice.Error], part_003:83-99), over the [Error()] method of the
    elements.  First its [range] loop, which carries the index [i] and the
    buffer; then the [switch] on the length. *)
Definition Errors_Error_range {E : Type} (Error_of : E -> string)
    : nat -> list E -> string -> string :=
  fix range (i : nat) (rest : list E) (buf : string) {struct rest} : string :=
    match rest with
    | [] => buf
    | err :: rest' =>
        let buf := buf +++ ("Error #" +++ Sprintf_d (Z.of_nat (i + 1)) +++ LF) in
        let buf := buf +++ Error_of err in
        let buf := buf +++ LF in
        range (S i) rest' buf
    end.

Definition Errors_Error {E : Type} (Error_of : E -> string) (this : list E)
    : string :=
  match this with
  | [] => "(no errors)"
  | [e] => Error_of e
  | _ =>
      Errors_Error_range Error_of 0 this
        ("Multiple handlers returned error:" +++ LF)
  end.

(** The [Error()] method of an [error] value. *)
Fixpoint error_Error (err : error) : string :=
  match err with
  | ErrorPtr apierr => Error_Error apierr
  | ValidationErrorPtr _ => "Validation error"
  | ErrorsVal errs => Errors_Error error_Error errs
  | OtherError msg => msg
  end.

End ErrorModel.

Arguments mkFieldError {V}.
Arguments FieldName {V}.
Arguments ErrorCode {V}.
Arguments FieldMessage {V}.
Arguments Data {V}.
Arguments mkValidationError {V}.
Arguments Errors {V}.
Arguments NewValidationError {V}.
Arguments AddErrorDetailed {V}.
Arguments AddError {V}.
Arguments HasErrors {V}.
Arguments ErrorPtr {V}.
Arguments ValidationErrorPtr {V}.
Arguments ErrorsVal {V}.
Arguments OtherError {V}.
Arguments error_Error {V}.

(** ** The response writer guard (context.go:196-214, part_003:272-290) *)

(** Calls received by the wrapped [http.ResponseWriter], oldest first.
    [CallHeaderSet k v] is [Header().Set(k, v)], [CallWriteHeader n] is
    [WriteHeader(n)], [CallWrite b] is [Write(b)]. *)
Inductive WriterCall : Type :=
| CallHeaderSet (key value : string)
| CallWriteHeader (statusCode : Z)
| CallWrite (b : string).

(** [type responseWriter struct { w http.ResponseWriter; written bool }]:
    the wrapped writer is the list of the calls it has received. *)
Record responseWriter : Type := mkResponseWriter {
  w : list WriterCall;
  written : bool
}.

(** [Header()] hands out the wrapped writer's header map; setting a header
    through it leaves [written] as it is. *)
Definition responseWriter_Header_Set (this : responseWriter) (key value : string)
    : responseWriter :=
  mkResponseWriter (w this ++ [CallHeaderSet key value]) (written this).

Definition responseWriter_Write (this : responseWriter) (b : string)
    : responseWriter :=
  mkResponseWriter (w this ++ [CallWrite b]) true.

Definition responseWriter_WriteHeader (this : responseWriter) (statusCode : Z)
    : responseWriter :=
  mkResponseWriter (w this ++ [CallWriteHeader statusCode]) true.

(** ** The request context (context.go, part_003) *)

(** The two editions of the engine in the repository. *)
Inductive Variant : Type :=
| context_go   (* src/context.go: [type Context struct] *)
| part_003.    (* src/unnamed/part_003: [type Context interface], [type context struct] *)

(** [*url.URL], by the text its [String()] method returns. *)
Record url_URL : Type := mkURL { URL_String : string }.

(** [type Pagination struct { Next *url.URL }] (part_003:77). *)
Record Pagination : Type := mkPagination { Pagination_Next : url_URL }.

Section Engine.

Variable V : Type.

(** What the context's result field can hold when the response is
    written: a value stored by a handler, the anonymous struct that
    [respond] builds for a validation error, or the [*Error] itself. *)
Inductive Body : Type :=
| UserValue (val : V)
| ValidationBody (statusCode : Z) (errorCode message : string)
                 (errors : list (FieldError V))
| ErrorBody (apierr : Error).

(** [encoding/json]'s [Marshal] on each of the three: the encoding of a
    handler's value and of the validation struct (which embeds the
    handler-supplied [Data]) can fail, with the text of the error; that of
    an [*Error], an [int] and a [string], cannot. *)
Variable json_Marshal_value : V -> string + string.
Variable json_Marshal_validation :
  Z -> string -> string -> list (FieldError V) -> string + string.
Variable json_Marshal_Error : Error -> string.

Definition json_Marshal (v : Body) : string + string :=
  match v with
  | UserValue val => json_Marshal_value val
  | ValidationBody statusCode errorCode message errors =>
      json_Marshal_validation statusCode errorCode message errors
  | ErrorBody apierr => inl (json_Marshal_Error apierr)
  end.

(** The body of a [HandlerFunc], as the sequence of operations it performs
    on the context it is given, ending with the error it returns ([None]
    for nil).  [DoSetResult] is [c.Result = val] in context.go and
    [c.SetResult(val)] in part_003; [DoSetPagination] exists in part_003
    only; the three [DoW...] are calls on [c.W] / [c.W()], the guarded
    writer; [DoNext] and [DoStop] are [c.Next()] and [c.Stop()];
    [DoErr] reads [c.Err()] and [DoReadResult] reads the exported
    [Result] field. *)
Inductive Prog : Type :=
| Return (err : option (error V))
| DoSetResult (val : option V) (k : Prog)
| DoSetPagination (p : option Pagination) (k : Prog)
| DoWHeaderSet (key value : string) (k : Prog)
| DoWWriteHeader (statusCode : Z) (k : Prog)
| DoWWrite (b : string) (k : Prog)
| DoNext (k : Prog)
| DoStop (k : Prog)
| DoErr (k : option (error V) -> Prog)
| DoReadResult (k : option Body -> Prog).

Definition HandlerFunc : Type := Prog.

(** Bookkeeping of the embedding: a handler of the chain is entered, and
    returns. *)
Inductive Event : Type :=
| Started (i : nat)
| Returned (i : nat) (err : option (error V)).

(** [type Context struct] (context.go:35-59) and [type context struct]
    (part_003:109-123).  [W] is the guarded writer, which both the exported
    [W] and the private [w] of context.go point to; [pagination] stays
    [None] in context.go; [logs] collects what [Errorf] of the embedded
    [appengine.Context] is given; [events] is the bookkeeping above. *)
Record Context : Type := mkContext {
  W : responseWriter;
  Result : option Body;
  pagination : option Pagination;
  handlers : list HandlerFunc;
  index : nat;
  errs : list (error V);
  logs : list string;
  events : list Event
}.

Definition set_W (c : Context) (x : responseWriter) : Context :=
  mkContext x (Result c) (pagination c) (handlers c) (index c) (errs c)
            (logs c) (events c).
Definition set_Result (c : Context) (x : option Body) : Context :=
  mkContext (W c) x (pagination c) (handlers c) (index c) (errs c)
            (logs c) (events c).
Definition set_pagination (c : Context) (x : option Pagination) : Context :=
  mkContext (W c) (Result c) x (handlers c) (index c) (errs c)
            (logs c) (events c).
Definition set_index (c : Context) (x : nat) : Context :=
  mkContext (W c) (Result c) (pagination c) (handlers c) x (errs c)
            (logs c) (events c).
Definition set_errs (c : Context) (x : list (error V)) : Context :=
  mkContext (W c) (Result c) (pagination c) (handlers c) (index c) x
            (logs c) (events c).
Definition set_logs (c : Context) (x : list string) : Context :=
  mkContext (W c) (Result c) (pagination c) (handlers c) (index c) (errs c)
            x (events c).
Definition set_events (c : Context) (x : list Event) : Context :=
  mkContext (W c) (Result c) (pagination c) (handlers c) (index c) (errs c)
            (logs c) x.

(** [newContext] (context.go:61, part_003:125). *)
Definition newContext (handlers : list HandlerFunc) : Context :=
  mkContext (mkResponseWriter [] false) None None handlers 0 [] [] [].

(** [Err()] (context.go:91-100, part_003:139-148). *)
Definition Err (this : Context) : option (error V) :=
  match errs this with
  | [] => None
  | [err] => Some err
  | _ => Some (ErrorsVal (errs this))
  end.

(** [Stop()] (context.go:132-134, part_003:194-196). *)
Definition Stop (this : Context) : Context :=
  set_index this (length (handlers this)).

(** [SetResult] and [SetPagination] (part_003:172-178). *)
Definition SetResult (this : Context) (val : option Body) : Context :=
  set_Result this val.
Definition SetPagination (this : Context) (p : option Pagination) : Context :=
  set_pagination this p.

(** [Errorf] of the embedded [appengine.Context]. *)
Definition Errorf (this : Context) (msg : string) : Context :=
  set_logs this (logs this ++ [msg]).

(** Which of the two files is being run. *)
Variable edition : Variant.

(** Running the body of a handler on the context [c]; [next] is what
    [c.Next()] does.  The result is the context as the handler leaves it
    and the error it returns. *)
Fixpoint call (next : Context -> Context) (handler : HandlerFunc)
    (c : Context) {struct handler} : Context * option (error V) :=
  match handler with
  | Return err => (c, err)
  | DoSetResult val k =>
      call next k (SetResult c (option_map UserValue val))
  | DoSetPagination p k =>
      match edition with
      | context_go => call next k c
      | part_003 => call next k (SetPagination c p)
      end
  | DoWHeaderSet key value k =>
      call next k (set_W c (responseWriter_Header_Set (W c) key value))
  | DoWWriteHeader statusCode k =>
      call next k (set_W c (responseWriter_WriteHeader (W c) statusCode))
  | DoWWrite b k =>
      call next k (set_W c (responseWriter_Write (W c) b))
  | DoNext k => call next k (next c)
  | DoStop k => call next k (Stop c)
  | DoErr k => call next (k (Err c)) c
  | DoReadResult k => call next (k (Result c)) c
  end.

(** [handler(this)] for the handler at position [i], with the bookkeeping
    of its return. *)
Definition invoke (next : Context -> Context) (i : nat)
    (handler : HandlerFunc) (this : Context) : Context * option (error V) :=
  let '(c, err) := call next handler this in
  (set_events c (events c ++ [Returned i err]), err).

(** [this.index += 1], with the bookkeeping of the handler's start. *)
Definition advance (this : Context) : Context :=
  set_events (set_index this (index this + 1))
             (events this ++ [Started (index this)]).

(** [do()] (part_003:200-207): runs the handler and tells whether the next
    one is to be called. *)
Definition do (next : Context -> Context) (i : nat) (handler : HandlerFunc)
    (this : Context) : Context * bool :=
  let '(c, err) := invoke next i handler this in
  match err with
  | Some e => (set_errs c (errs c ++ [e]), false)
  | None => (c, true)
  end.

(** [Next()] (context.go:105-120, part_003:180-192): its body, in which
    [Next] stands for the calls of [this.Next()], those of the body itself
    and those that the handler makes on the context it is given.  Past the
    test of the first line the index is within the slice, so that the
    [None] of [nth_error] does not arise. *)
Definition Next_body (Next : Context -> Context) (this : Context) : Context :=
  if (length (handlers this) <=? index this)%nat then this
  else
    match nth_error (handlers this) (index this) with
    | None => this
    | Some handler =>
        let i := index this in
        let this := advance this in
        match edition with
        | context_go =>
            let '(this, err) := invoke Next i handler this in
            match err with
            | Some e => Stop (set_errs this (errs this ++ [e]))
            | None =>
                if written (W this) then Stop this
                else Next this
            end
        | part_003 =>
            let '(this, continue) := do Next i handler this in
            if continue then Next this else Stop this
        end
    end.

(** The recursion of [Next] into itself ends because every call that runs
    a handler moves [index] one step closer to [len(handlers)]; [fuel]
    counts these steps, and [Next] below provides as many as are left. *)
Fixpoint Next_fuel (fuel : nat) : Context -> Context :=
  match fuel with
  | O => fun this => this
  | S fuel' => Next_body (Next_fuel fuel')
  end.

Definition Next (this : Context) : Context :=
  Next_fuel (length (handlers this) - index this) this.

(** A handler called on a context whose cursor already points past it. *)
Definition call_handler (i : nat) (handler : HandlerFunc) (this : Context)
    : Context * option (error V) :=
  invoke Next i handler this.

(** [respond()] (context.go:142-194, part_003:215-270), in the three
    parts of its body.  First the part that settles the status code and
    the result (context.go:151-180, part_003:224-256). *)
Definition resolve (this : Context) : Z * Context :=
  match Err this with
  | Some err =>
      let this := SetResult this None in
      match err with
      | ValidationErrorPtr verr =>
          (StatusValidationError,
           SetResult this
             (Some (ValidationBody StatusValidationError "multi"
                      "Validation error. See errors array for details."
                      (Errors verr))))
      | ErrorPtr apierr =>
          (StatusCode apierr,
           if negb (String.eqb (Message apierr) "")
           then SetResult this (Some (ErrorBody apierr))
           else this)
      | _ => (StatusInternalServerError, this)
      end
  | None =>
      (StatusOK,
       match edition with
       | context_go => this
       | part_003 =>
           match pagination this with
           | Some p =>
               set_W this
                 (responseWriter_Header_Set (W this) "X-Pagination-Next"
                    (URL_String (Pagination_Next p)))
           | None => this
           end
       end)
  end.

(** Then the part that writes (context.go:182-193, part_003:258-269). *)
Definition write_out (statusCode : Z) (this : Context) : Context :=
  let this :=
    set_W this
      (responseWriter_Header_Set (W this) "Content-Type" "application/json") in
  match Result this with
  | Some result =>
      match json_Marshal result with
      | inr err =>
          let this :=
            Errorf this ("json.Marshal error of response body: " +++ err) in
          set_W this
            (responseWriter_WriteHeader (W this) StatusInternalServerError)
      | inl b =>
          let this :=
            set_W this (responseWriter_WriteHeader (W this) statusCode) in
          set_W this (responseWriter_Write (W this) b)
      end
  | None => set_W this (responseWriter_WriteHeader (W this) statusCode)
  end.

(** And the whole, behind the check of the guard (context.go:143-146,
    part_003:216-219). *)
Definition respond (this : Context) : Context :=
  if written (W this) then this
  else
    let '(statusCode, this) := resolve this in
    write_out statusCode this.

(** The function that [wrap] (router.go:96-105) builds, once the base
    context has been created: run the chain, then respond. *)
Definition serve (handlers : list HandlerFunc) : Context :=
  respond (Next (newContext handlers)).

End Engine.

Arguments UserValue {V}.
Arguments ValidationBody {V}.
Arguments ErrorBody {V}.
Arguments json_Marshal {V}.
Arguments Return {V}.
Arguments DoSetResult {V}.
Arguments DoSetPagination {V}.
Arguments DoWHeaderSet {V}.
Arguments DoWWriteHeader {V}.
Arguments DoWWrite {V}.
Arguments DoNext {V}.
Arguments DoStop {V}.
Arguments DoErr {V}.
Arguments DoReadResult {V}.
Arguments Started {V}.
Arguments Returned {V}.
Arguments mkContext {V}.
Arguments W {V}.
Arguments Result {V}.
Arguments pagination {V}.
Arguments handlers {V}.
Arguments index {V}.
Arguments errs {V}.
Arguments logs {V}.
Arguments events {V}.
Arguments set_W {V}.
Arguments set_Result {V}.
Arguments set_pagination {V}.
Arguments set_index {V}.
Arguments set_errs {V}.
Arguments set_logs {V}.
Arguments set_events {V}.
Arguments newContext {V}.
Arguments Err {V}.
Arguments Stop {V}.
Arguments SetResult {V}.
Arguments SetPagination {V}.
Arguments Errorf {V}.
Arguments call {V}.
Arguments invoke {V}.
Arguments advance {V}.
Arguments do {V}.
Arguments Next_body {V}.
Arguments Next_fuel {V}.
Arguments Next {V}.
Arguments call_handler {V}.
Arguments resolve {V}.
Arguments write_out {V}.
Arguments respond {V}.
Arguments serve {V}.

(** ** Parameters of a request (part_001: [params], part_002: [Params]) *)

(** [httprouter.Param] and [httprouter.Params]: the matched path segments,
    in the order of the route pattern. *)
Record Param : Type := mkParam { Key : string; Value : string }.
Definition httprouter_Params : Type := list Param.

(** [httprouter.Params.ByName]: the value of the first parameter whose key
    is [name], the empty string when there is none. *)
Fixpoint ByName (ps : httprouter_Params) (name : string) : string :=
  match ps with
  | [] => ""
  | p :: ps' => if String.eqb (Key p) name then Value p else ByName ps' name
  end.

(** [url.Values], a [map[string][]string] read with Go's zero default, and
    its [Get]: the first value stored under the key, the empty string when
    there is none. *)
Definition url_Values : Type := string -> list string.

Definition url_Values_Get (v : url_Values) (key : string) : string :=
  match v key with
  | [] => ""
  | x :: _ => x
  end.

(** [*http.Request], by what the package reads of it: [r.URL.Query()]. *)
Record Request : Type := mkRequest { URL_Query : url_Values }.

(** [type Params struct { r *http.Request; p httprouter.Params }]
    (part_002:14; [params] in part_001:12). *)
Record Params : Type := mkParams {
  Params_r : Request;
  Params_p : httprouter_Params
}.

(** [Params.Get] (part_002:21-27), the same code as [params.Get]
    (part_001:19-25). *)
Definition Params_Get (this : Params) (key : string) : string :=
  let val := ByName (Params_p this) key in
  if negb (String.eqb val "") then val
  else url_Values_Get (URL_Query (Params_r this)) key.

(** ** The router (router.go) *)

(** What a call comes to: a value, or a run-time panic with its message. *)
Inductive Outcome (A : Type) : Type :=
| Done (a : A)
| Panic (msg : string).
Arguments Done {A}.
Arguments Panic {A}.

Section RouterModel.

Variable V : Type.
Variable json_Marshal_value : V -> string + string.
Variable json_Marshal_validation :
  Z -> string -> string -> list (FieldError V) -> string + string.
Variable json_Marshal_Error : Error -> string.
Variable edition : Variant.

(** [context.Context], the value a [CreateContextFn] returns. *)
Variable BaseContext : Type.

Definition CreateContextFn : Type := Request -> BaseContext.

(** [type Router struct] (router.go:14-20).  A [*Router] is modelled by
    the router it points to, [parent] being [None] for nil; [Router_r],
    the [*httprouter.Router], is the identity of the route table that
    [NewRouter] allocated, [None] for nil. *)
Inductive Router : Type := mkRouter {
  CreateContext : option CreateContextFn;
  Router_parent : option Router;
  Router_r : option nat;
  Router_path : string;
  mw : list (HandlerFunc V)
}.

(** [NewRouter] (router.go:29-37); [table] names the fresh
    [httprouter.Router], [appengine_NewContext] is the default hook. *)
Definition NewRouter (table : nat) (appengine_NewContext : CreateContextFn)
    : Router :=
  mkRouter (Some appengine_NewContext) None (Some table) "" [].

(** [router()] (router.go:39-45).  With neither a table nor a parent the
    call [this.parent.router()] dereferences nil. *)
Fixpoint router (this : Router) : Outcome nat :=
  match Router_r this with
  | Some t => Done t
  | None =>
      match Router_parent this with
      | Some p => router p
      | None =>
          Panic "runtime error: invalid memory address or nil pointer dereference"
      end
  end.

(** [middleware()] (router.go:47-54). *)
Fixpoint middleware (this : Router) : list (HandlerFunc V) :=
  let fns :=
    match Router_parent this with
    | Some p => middleware p
    | None => []
    end in
  fns ++ mw this.

(** [createContext] (router.go:56-64). *)
Fixpoint createContext (this : Router) (r : Request) : Outcome BaseContext :=
  match CreateContext this with
  | Some f => Done (f r)
  | None =>
      match Router_parent this with
      | Some p => createContext p r
      | None => Panic "No CreateContext func is set"
      end
  end.

(** [SubRouter] (router.go:66-72) and [Use] (router.go:92-94). *)
Definition SubRouter (this : Router) (path : string) : Router :=
  mkRouter None (Some this) None (Router_path this +++ path) [].

Definition Use (this : Router) (middleware : HandlerFunc V) : Router :=
  mkRouter (CreateContext this) (Router_parent this) (Router_r this)
           (Router_path this) (mw this ++ [middleware]).

(** [httprouter.Handle], applied to a request: the context it leaves
    behind once the response is out, or the panic that ended it. *)
Definition Handle : Type := Request -> Outcome (Context V).

(** [wrap] (router.go:96-105).  The hook is an argument of the closure and
    is called when the closure is. *)
Definition wrap (createContext : Request -> Outcome BaseContext)
    (handlers : list (HandlerFunc V)) : Handle :=
  fun r =>
    match createContext r with
    | Panic msg => Panic msg
    | Done c =>
        let context := newContext handlers in
        let context := Next edition context in
        Done (respond json_Marshal_value json_Marshal_validation
                      json_Marshal_Error edition context)
    end.

(** What [route] hands to [httprouter.Router.Handle]: the table, the
    method, the full pattern and the handle.  The checks that httprouter
    itself makes on the pattern are not part of this package. *)
Record Registration : Type := mkRegistration {
  reg_table : nat;
  reg_method : string;
  reg_path : string;
  reg_handle : Handle
}.

(** [route] (router.go:74-81), and the four methods built on it. *)
Definition route (this : Router) (method path : string)
    (handlers : list (HandlerFunc V)) : Outcome Registration :=
  let fns := middleware this in
  let fns := fns ++ handlers in
  match router this with
  | Panic msg => Panic msg
  | Done t =>
      Done (mkRegistration t method (Router_path this +++ path)
              (wrap (createContext this) fns))
  end.

Definition Get (this : Router) (path : string) (fns : list (HandlerFunc V)) :=
  route this "GET" path fns.
Definition Post (this : Router) (path : string) (fns : list (HandlerFunc V)) :=
  route this "POST" path fns.
Definition Put (this : Router) (path : string) (fns : list (HandlerFunc V)) :=
  route this "PUT" path fns.
Definition Delete (this : Router) (path : string) (fns : list (HandlerFunc V)) :=
  route this "DELETE" path fns.

End RouterModel.

Arguments mkRouter {V BaseContext}.
Arguments CreateContext {V BaseContext}.
Arguments Router_parent {V BaseContext}.
Arguments Router_r {V BaseContext}.
Arguments Router_path {V BaseContext}.
Arguments mw {V BaseContext}.
Arguments NewRouter {V BaseContext}.
Arguments router {V BaseContext}.
Arguments middleware {V BaseContext}.
Arguments createContext {V BaseContext}.
Arguments SubRouter {V BaseContext}.
Arguments Use {V BaseContext}.
Arguments wrap {V}.
Arguments mkRegistration {V}.
Arguments reg_table {V}.
Arguments reg_method {V}.
Arguments reg_path {V}.
Arguments reg_handle {V}.
Arguments route {V}.
Arguments Get {V}.

(** ** Vocabulary of the statements *)

(** The status lines, the bodies and the headers among the calls that the
    wrapped writer received. *)
Definition status_lines (calls : list WriterCall) : list Z :=
  flat_map (fun c => match c with CallWriteHeader n => [n] | _ => [] end) calls.

Definition bodies (calls : list WriterCall) : list string :=
  flat_map (fun c => match c with CallWrite b => [b] | _ => [] end) calls.

Definition headers_set (calls : list WriterCall) : list (string * string) :=
  flat_map (fun c => match c with CallHeaderSet k v => [(k, v)] | _ => [] end)
           calls.

(** The message of an aggregate of several errors, as the specification
    words it: the constituents' messages in order, each under its 1-based
    index.  An [entry] is the index line, the message, a line feed. *)
Definition entry (im : nat * string) : string :=
  "Error #" +++ Sprintf_d (Z.of_nat (fst im)) +++ LF +++ snd im +++ LF.

Definition AggregateError_message (msgs : list string) : string :=
  ("Multiple handlers returned error:" +++ LF)
  +++ String.concat "" (map entry (combine (seq 1 (length msgs)) msgs)).

(** The path parameter stored under a key, if any: the first match, as
    [ByName] searches. *)
Definition path_param (ps : httprouter_Params) (key : string) : option string :=
  option_map Value (find (fun p => String.eqb (Key p) key) ps).

Section Vocabulary.

Context {V : Type}.

(** The position in the chain that an event is about. *)
Definition event_index (ev : Event V) : nat :=
  match ev with
  | Started i => i
  | Returned i _ => i
  end.

(** The errors that handlers returned, in the order of their return. *)
Definition errors_of (evs : list (Event V)) : list (error V) :=
  flat_map (fun ev => match ev with Returned _ (Some e) => [e] | _ => [] end)
           evs.

(** Is the event the return of the handler at position [k]? *)
Definition returned_at (k : nat) (ev : Event V) : bool :=
  match ev with
  | Returned i _ => Nat.eqb i k
  | Started _ => false
  end.

(** The positions of the handlers that were entered, in order. *)
Definition started (evs : list (Event V)) : list nat :=
  flat_map (fun ev => match ev with Started i => [i] | _ => [] end) evs.

(** A handler body that never calls [c.Next()]. *)
Fixpoint next_free (p : Prog V) : Prop :=
  match p with
  | Return _ => True
  | DoSetResult _ k => next_free k
  | DoSetPagination _ k => next_free k
  | DoWHeaderSet _ _ k => next_free k
  | DoWWriteHeader _ k => next_free k
  | DoWWrite _ k => next_free k
  | DoNext _ => False
  | DoStop k => next_free k
  | DoErr k => forall e, next_free (k e)
  | DoReadResult k => forall r, next_free (k r)
  end.

(** The cursor has not run past the chain. *)
Definition in_range (c : Context V) : Prop :=
  index c <= length (handlers c).

(** [Exhausted], in the words of the specification. *)
Definition Exhausted (c : Context V) : Prop :=
  length (handlers c) <= index c.

(** The chain is [H] and the cursor lies between [lo] and its length. *)
Definition frame (H : list (HandlerFunc V)) (lo : nat) (c : Context V) : Prop :=
  handlers c = H /\ lo <= index c /\ index c <= length H.

(** As long as the guard's flag is down, the wrapped writer has received
    neither a status line nor a body. *)
Definition guard_faithful (c : Context V) : Prop :=
  written (W c) = false ->
  status_lines (w (W c)) = [] /\ bodies (w (W c)) = [].

(** What a stretch of the execution, from the context [c] to the context
    [c'], does to the bookkeeping.  The chain is unchanged and the cursor
    only moves forward, within the chain; the events [new] of the stretch
    are about positions between the two cursors; the errors recorded are
    those returned; a handler that returned had been entered; the handler
    at position [k] returns at most once, and once it has returned an
    error the chain is exhausted and nothing beyond [k] was entered. *)
Definition orderly (k : nat) (c c' : Context V) : Prop :=
  handlers c' = handlers c /\
  index c <= index c' /\
  index c' <= length (handlers c) /\
  exists new,
    events c' = events c ++ new /\
    errs c' = errs c ++ errors_of new /\
    Forall (fun ev => index c <= event_index ev /\ event_index ev < index c')
           new /\
    (forall j r, In (Returned j r) new -> In (Started j) new) /\
    length (filter (returned_at k) new) <= 1 /\
    (forall e,
       In (Returned k (Some e)) new ->
       index c' = length (handlers c) /\
       forall j, In (Started j) new -> j <= k).

(** No hook on a router nor on any of its ancestors. *)
Fixpoint no_hook {BaseContext : Type} (this : Router V BaseContext) : Prop :=
  CreateContext this = None /\
  match Router_parent this with
  | Some p => no_hook p
  | None => True
  end.

End Vocabulary.

(** ** Concrete values for the examples *)

Module Sample.

(** A few Go values: a string, an int, and a channel, which
    [encoding/json] refuses. *)
Inductive GoValue : Type :=
| GoString (s : string)
| GoInt (n : Z)
| GoChan.

Definition DQ : string := String (ascii_of_nat 34) EmptyString.
Definition quote (s : string) : string := DQ +++ s +++ DQ.

Definition marshal_value (v : GoValue) : string + string :=
  match v with
  | GoString s => inl (quote s)
  | GoInt n => inl (Sprintf_d n)
  | GoChan => inr "json: unsupported type: chan int"
  end.

Definition marshal_Error (e : Error) : string :=
  "{" +++ quote "statusCode" +++ ":" +++ Sprintf_d (StatusCode e)
  +++ (if String.eqb (Message e) "" then ""
       else "," +++ quote "message" +++ ":" +++ quote (Message e))
  +++ "}".

Definition marshal_field (f : FieldError GoValue) : string + string :=
  let head :=
    "{" +++ quote "key" +++ ":" +++ quote (FieldName f)
    +++ "," +++ quote "errorCode" +++ ":" +++ quote (ErrorCode f)
    +++ (if String.eqb (FieldMessage f) "" then ""
         else "," +++ quote "message" +++ ":" +++ quote (FieldMessage f)) in
  match Data f with
  | None => inl (head +++ "}")
  | Some d =>
      match marshal_value d with
      | inl s => inl (head +++ "," +++ quote "data" +++ ":" +++ s +++ "}")
      | inr e => inr e
      end
  end.

Fixpoint marshal_fields (fs : list (FieldError GoValue)) : string + string :=
  match fs with
  | [] => inl ""
  | f :: fs' =>
      match marshal_field f, marshal_fields fs' with
      | inl a, inl b =>
          inl (a +++ (match fs' with [] => "" | _ => "," end) +++ b)
      | inr e, _ => inr e
      | _, inr e => inr e
      end
  end.

Definition marshal_validation (statusCode : Z) (errorCode message : string)
    (errors : list (FieldError GoValue)) : string + string :=
  match marshal_fields errors with
  | inl s =>
      inl ("{" +++ quote "statusCode" +++ ":" +++ Sprintf_d statusCode
           +++ "," +++ quote "errorCode" +++ ":" +++ quote errorCode
           +++ "," +++ quote "message" +++ ":" +++ quote message
           +++ "," +++ quote "errors" +++ ":[" +++ s +++ "]}")
  | inr e => inr e
  end.

Definition respond' : Variant -> Context GoValue -> Context GoValue :=
  respond marshal_value marshal_validation marshal_Error.

Definition serve' : Variant -> list (HandlerFunc GoValue) -> Context GoValue :=
  serve marshal_value marshal_validation marshal_Error.

(** Handlers. *)
Definition sets_ok : HandlerFunc GoValue :=
  DoSetResult (Some (GoString "ok")) (Return None).
Definition sets_chan : HandlerFunc GoValue :=
  DoSetResult (Some GoChan) (Return None).
Definition writes_200 : HandlerFunc GoValue :=
  DoWWriteHeader 200 (Return None).
Definition not_found : HandlerFunc GoValue :=
  Return (Some (ErrorPtr ErrNotFound)).
Definition teapot : HandlerFunc GoValue :=
  Return (Some (ErrorPtr (NewError 418 "short and stout"))).
Definition name_required : ValidationError GoValue :=
  AddError NewValidationError "name" "required".
Definition invalid : HandlerFunc GoValue :=
  Return (Some (ValidationErrorPtr name_required)).
Definition unserializable : ValidationError GoValue :=
  AddErrorDetailed NewValidationError "callback" "syntax-error" (Some GoChan) "".
Definition invalid_chan : HandlerFunc GoValue :=
  Return (Some (ValidationErrorPtr unserializable)).
Definition writes_200_then_invalid : HandlerFunc GoValue :=
  DoWWriteHeader 200 (Return (Some (ValidationErrorPtr name_required))).
Definition writes_200_then_not_found : HandlerFunc GoValue :=
  DoWWriteHeader 200 (Return (Some (ErrorPtr ErrNotFound))).
Definition next_page : Pagination := mkPagination (mkURL "/items?cursor=abc").
Definition paginates : HandlerFunc GoValue :=
  DoSetPagination (Some next_page) (DoSetResult (Some (GoString "ok")) (Return None)).
(** A middleware that runs the rest of the chain, then fails. *)
Definition fails_afterwards : HandlerFunc GoValue :=
  DoNext (Return (Some (OtherError "late"))).
(** A handler that runs the rest of the chain itself, then reports a status. *)
Definition next_then_teapot : HandlerFunc GoValue :=
  DoNext (Return (Some (ErrorPtr (NewError 418 "short and stout")))).
(** The router of [NewRouter] after [router.CreateContext = nil], and a
    sub-router of it. *)
Definition hookless : Router GoValue unit :=
  mkRouter None None (Some 0) "" [].
Definition hookless_sub : Router GoValue unit :=
  Use (SubRouter hookless "/api") writes_200.
Definition any_request : Request := mkRequest (fun _ => []).
Definition writes_then_teapot : HandlerFunc GoValue :=
  DoWWrite "partial" (Return (Some (ErrorPtr (NewError 418 "short and stout")))).

End Sample.

(** ** The course of the chain, continued *)

Section ChainVocabulary.

Context {V : Type}.

(** A handler body that lets the request pass: it returns nil, sends
    neither a status line nor a body and never calls [c.Stop()].  It may
    set the result, the pagination hint and headers, read the context, and
    call [c.Next()]. *)
Fixpoint passes (p : Prog V) : Prop :=
  match p with
  | Return None => True
  | Return (Some _) => False
  | DoSetResult _ k => passes k
  | DoSetPagination _ k => passes k
  | DoWHeaderSet _ _ k => passes k
  | DoWWriteHeader _ _ => False
  | DoWWrite _ _ => False
  | DoNext k => passes k
  | DoStop _ => False
  | DoErr k => forall e, passes (k e)
  | DoReadResult k => forall r, passes (k r)
  end.

(** Sequences of events in which entries and returns nest like brackets:
    a handler that is entered returns, after everything that was entered
    in between has returned. *)
Inductive balanced : list (Event V) -> Prop :=
| balanced_nil : balanced []
| balanced_cons (i : nat) (err : option (error V)) (inner rest : list (Event V)) :
    balanced inner ->
    balanced rest ->
    balanced (Started i :: inner ++ Returned i err :: rest).

(** What a stretch of the execution in which handlers pass the request on
    does, from the context [c] to the context [c']: the chain, the errors
    recorded and the guard's flag are as they were, and the handlers
    between the two cursors were entered, each once, in their order. *)
Definition passed_on (c c' : Context V) : Prop :=
  handlers c' = handlers c /\
  errs c' = errs c /\
  written (W c') = written (W c) /\
  index c <= index c' /\
  index c' <= length (handlers c) /\
  started (events c') =
    started (events c) ++ seq (index c) (index c' - index c).

(** The context [c] runs the chain of the context [c'] behind one more
    handler [m] in front of it: the cursor of [c] is one step further, the
    wrapped writer of [c] has received the calls [pre] before those that
    the writer of [c'] has received, and all that handlers can read is the
    same in both. *)
Definition shifted (pre : list WriterCall) (m : HandlerFunc V)
    (c' c : Context V) : Prop :=
  handlers c = m :: handlers c' /\
  index c = S (index c') /\
  w (W c) = pre ++ w (W c') /\
  written (W c) = written (W c') /\
  Result c = Result c' /\
  pagination c = pagination c' /\
  errs c = errs c' /\
  logs c = logs c'.

End ChainVocabulary.

(** Sub-routers nested one in the other below [root]: for each level, from
    the outermost, the path given to [SubRouter] and the middleware then
    given to [Use], one call each. *)
Definition sub_routers {V BaseContext : Type} (root : Router V BaseContext)
    (levels : list (string * list (HandlerFunc V))) : Router V BaseContext :=
  fold_left
    (fun this level => fold_left Use (snd level) (SubRouter this (fst level)))
    levels root.

(** ** The value bag (part_000: [Values] and [values]) *)

Section ValueBag.

(** The keys in use: Go values that can be compared and are equal to
    themselves, which leaves out the values that a map refuses as keys
    (slices, maps, functions) and the floating-point NaN. *)
Variable K : Type.
Variable K_eq_dec : forall x y : K, {x = y} + {x <> y}.

Variable V : Type.

(** A non-nil value of type [interface{}], by its dynamic type, as far as
    the type assertions of the getters tell them apart. *)
Inductive Dynamic : Type :=
| DynString (s : string)
| DynInt (n : Z)
| DynInt64 (n : Z)
| DynOther (v : V).

(** [type Values map[interface{}]interface{}]: for each key, whether it is
    present, and the value stored, [None] for a nil interface. *)
Definition Values : Type := K -> option (option Dynamic).

(** [make(map[interface{}]interface{})] (context.go:68). *)
Definition Values_make : Values := fun _ => None.

(** [Get] (part_000:7-9, 52-54): indexing a map gives the zero value, nil,
    for a key that is not there. *)
Definition Values_Get (this : Values) (key : K) : option Dynamic :=
  match this key with
  | Some val => val
  | None => None
  end.

(** [GetString], [GetInt], [GetInt64] (part_000:11-40, 56-85). *)
Definition Values_GetString (this : Values) (key : K) : string :=
  match this key with
  | Some val =>
      match val with
      | Some (DynString str) => str
      | _ => ""
      end
  | None => ""
  end.

Definition Values_GetInt (this : Values) (key : K) : Z :=
  match this key with
  | Some val =>
      match val with
      | Some (DynInt v) => v
      | _ => 0%Z
      end
  | None => 0%Z
  end.

Definition Values_GetInt64 (this : Values) (key : K) : Z :=
  match this key with
  | Some val =>
      match val with
      | Some (DynInt64 v) => v
      | _ => 0%Z
      end
  | None => 0%Z
  end.

(** [Set] (part_000:42-44, 87-89). *)
Definition Values_Set (this : Values) (key : K) (val : option Dynamic) : Values :=
  fun k => if K_eq_dec k key then Some val else this k.

End ValueBag.

Arguments DynString {V}.
Arguments DynInt {V}.
Arguments DynInt64 {V}.
Arguments DynOther {V}.
Arguments Values_make {K V}.
Arguments Values_Get {K V}.
Arguments Values_GetString {K V}.
Arguments Values_GetInt {K V}.
Arguments Values_GetInt64 {K V}.
Arguments Values_Set {K} K_eq_dec {V}.

(** ** Typed parameters (part_001:29-53, part_002:32-61) *)

Section TypedParams.

(** [strconv.Atoi] and [strconv.ParseInt(_, 10, 64)]: the number parsed,
    [None] when the error returned is not nil. *)
Variable strconv_Atoi : string -> option Z.
Variable strconv_ParseInt_10_64 : string -> option Z.

(** [time.Time], and the first of the two values that
    [time.Parse(layout, value)] returns. *)
Variable time_Time : Type.
Variable time_Parse : string -> string -> time_Time.

(** [GetInt] (part_002:32-39). *)
Definition Params_GetInt (this : Params) (key : string) : Z :=
  let strVal := Params_Get this key in
  if negb (String.eqb strVal "") then
    match strconv_Atoi strVal with
    | Some intVal => intVal
    | None => 0%Z
    end
  else 0%Z.

(** [GetInt64] (part_002:44-52). *)
Definition Params_GetInt64 (this : Params) (key : string) : Z :=
  let val := 0%Z in
  let strVal := Params_Get this key in
  if negb (String.eqb strVal "") then
    match strconv_ParseInt_10_64 strVal with
    | Some intVal => intVal
    | None => val
    end
  else val.

(** [GetDate] (part_002:58-61); [DateFormat] is the package variable of
    that name at the time of the call. *)
Definition Params_GetDate (DateFormat : string) (this : Params) (key : string)
    : time_Time :=
  time_Parse DateFormat (Params_Get this key).

End TypedParams.

(** ** [ParseBody] (context.go:75-86, part_003:159-170) *)

Section ParseBodyModel.

Variable V : Type.

(** [json.Unmarshal(b, dst)] for the [dst] that the handler passes:
    [None] for a nil error, the text of the error otherwise.  What is
    stored into [dst] stays with the handler. *)
Variable json_Unmarshal : string -> option string.

(** [body] is what [ioutil.ReadAll] returns for the body of the request,
    the bytes or the text of the error.  The result is the lines given to
    [Debugf] and the error returned. *)
Definition ParseBody (body : string + string) : list string * option (error V) :=
  match body with
  | inr err => ([], Some (OtherError ("error reading request body: " +++ err)))
  | inl b =>
      match json_Unmarshal b with
      | Some err => (["Error unmashalling body: " +++ err], Some (ErrorPtr ErrBadRequest))
      | None => ([], None)
      end
  end.

End ParseBodyModel.

Arguments ParseBody {V}.

(** ** The CORS handlers (error.go:84-103) *)

(** [*http.Request], by what these two handlers read of it: [r.Method]
    and [r.Header.Get]. *)
Record RequestHead : Type := mkRequestHead {
  Method : string;
  Header_Get : string -> string
}.

(** [strings.Join]. *)
Definition strings_Join (elems : list string) (sep : string) : string :=
  String.concat sep elems.

Section CORS.

Variable V : Type.

(** [AllowAllCORS] (error.go:84-90), on a context whose request is [r]. *)
Definition AllowAllCORS (r : RequestHead) : HandlerFunc V :=
  let origin := Header_Get r "Origin" in
  if negb (String.eqb origin "") then
    DoWHeaderSet "Access-Control-Allow-Origin" origin (Return None)
  else Return None.

(** [CORSPreflight] (error.go:92-103), likewise. *)
Definition CORSPreflight (methods headers : list string) (r : RequestHead)
    : HandlerFunc V :=
  if String.eqb (Method r) "OPTIONS" then
    DoWHeaderSet "Access-Control-Allow-Methods" (strings_Join methods ", ")
      (DoWHeaderSet "Access-Control-Allow-Headers" (strings_Join headers ", ")
         (DoWWriteHeader 200 (Return None)))
  else Return None.

End CORS.

Arguments AllowAllCORS {V}.
Arguments CORSPreflight {V}.

(** ** More concrete values for the examples *)

Module Examples.

(** A middleware that tags the response, then runs the rest of the chain. *)
Definition tags_request : HandlerFunc Sample.GoValue :=
  DoWHeaderSet "X-Request-Id" "1" (DoNext (Return None)).

(** A preflight request from another origin. *)
Definition preflight : RequestHead :=
  mkRequestHead "OPTIONS"
    (fun key => if String.eqb key "Origin" then "https://example.org" else "").

(** A parser of decimal numerals, for [strconv.Atoi]. *)
Definition Atoi (s : string) : option Z :=
  option_map Z.of_int (NilZero.int_of_string s).

(** The request [/items/abc?id=9] on the route [/items/:id]. *)
Definition item_abc : Params :=
  mkParams (mkRequest (fun key => if String.eqb key "id" then ["9"] else []))
           [mkParam "id" "abc"].

(** The router of [NewRouter]. *)
Definition root : Router Sample.GoValue unit := NewRouter 0 (fun _ => tt).

(** [json.Unmarshal] into a struct: the empty object is accepted, anything
    else here is not. *)
Definition Unmarshal (b : string) : option string :=
  if String.eqb b "{}" then None else Some "unexpected end of JSON input".

End Examples.

(** * Properties *)

(** ** Strings *)

Lemma append_nil_right (s : string) : s +++ "" = s.
Proof. induction s as [|a s IH]; simpl; [reflexivity | now rewrite IH]. Qed.

Lemma append_associative (s t u : string) : (s +++ t) +++ u = s +++ (t +++ u).
Proof. induction s as [|a s IH]; simpl; [reflexivity | now rewrite IH]. Qed.

Lemma concat_empty_cons (x : string) (xs : list string) :
  String.concat "" (x :: xs) = x +++ String.concat "" xs.
Proof.
  destruct xs as [|y ys]; simpl; [now rewrite append_nil_right | reflexivity].
Qed.

Lemma combine_append {A B : Type} (l1 l2 : list A) (m1 m2 : list B) :
  length l1 = length m1 ->
  combine (l1 ++ l2) (m1 ++ m2) = combine l1 m1 ++ combine l2 m2.
Proof.
  revert m1.
  induction l1 as [|a l1 IH]; intros [|b m1] H; simpl in *; try discriminate.
  - reflexivity.
  - f_equal. apply IH. now inversion H.
Qed.

Lemma concat_empty_app (xs ys : list string) :
  String.concat "" (xs ++ ys) = String.concat "" xs +++ String.concat "" ys.
Proof.
  induction xs as [|x xs IH]; [reflexivity|].
  rewrite <- app_comm_cons, !concat_empty_cons, IH.
  now rewrite append_associative.
Qed.

(** ** The aggregate error ([Errors.Error], [Err]) *)

Lemma AggregateError_message_entries (msgs : list string) :
  AggregateError_message msgs =
  ("Multiple handlers returned error:" +++ LF)
  +++ String.concat "" (map entry (combine (seq 1 (length msgs)) msgs)).
Proof. reflexivity. Qed.

(** The loop appends to the buffer the entries of the remaining errors,
    numbered from [i + 1]. *)
Lemma Errors_Error_range_entries {E : Type} (Error_of : E -> string)
    (rest : list E) (i : nat) (buf : string) :
  Errors_Error_range Error_of i rest buf =
  buf +++ String.concat ""
            (map entry (combine (seq (S i) (length rest)) (map Error_of rest))).
Proof.
  revert i buf.
  induction rest as [|err rest IH]; intros i buf.
  - simpl. now rewrite append_nil_right.
  - cbn [Errors_Error_range length seq map combine].
    rewrite IH, concat_empty_cons.
    unfold entry at 2. cbn [fst snd].
    rewrite Nat.add_1_r, !append_associative.
    reflexivity.
Qed.

(** With two errors or more, [Errors.Error] is the aggregate message of the
    specification. *)
Lemma Errors_Error_aggregate {E : Type} (Error_of : E -> string)
    (e1 e2 : E) (es : list E) :
  Errors_Error Error_of (e1 :: e2 :: es) =
  AggregateError_message (map Error_of (e1 :: e2 :: es)).
Proof.
  unfold Errors_Error.
  rewrite Errors_Error_range_entries, AggregateError_message_entries.
  now rewrite length_map.
Qed.

(** Every constituent's entry occurs in the aggregate message, after the
    entries of the errors recorded before it and before those of the errors
    recorded after it. *)
Lemma AggregateError_message_contains (before after : list string) (m : string) :
  AggregateError_message (before ++ m :: after) =
  (("Multiple handlers returned error:" +++ LF)
   +++ String.concat "" (map entry (combine (seq 1 (length before)) before)))
  +++ entry (S (length before), m)
  +++ String.concat ""
        (map entry (combine (seq (S (S (length before))) (length after)) after)).
Proof.
  rewrite AggregateError_message_entries.
  rewrite length_app, seq_app, combine_append by now rewrite length_seq.
  rewrite map_app, concat_empty_app.
  cbn [length seq combine map plus].
  rewrite concat_empty_cons, !append_associative.
  reflexivity.
Qed.

(** C6. [Err()] returns nil when no error was recorded, the recorded error
    itself when exactly one was, and with two or more the aggregate of all
    of them, whose message holds every constituent's message in recorded
    order, each under its 1-based index. *)
Theorem Err_nil_single_aggregate {V : Type} (c : Context V) :
  (errs c = [] -> Err c = None) /\
  (forall e, errs c = [e] -> Err c = Some e) /\
  (2 <= length (errs c) ->
   Err c = Some (ErrorsVal (errs c)) /\
   error_Error (ErrorsVal (errs c)) =
     AggregateError_message (map error_Error (errs c)) /\
   forall before e after,
     errs c = before ++ e :: after ->
     exists pre post,
       error_Error (ErrorsVal (errs c)) =
       pre +++ entry (S (length before), error_Error e) +++ post).
Proof.
  unfold Err.
  split; [intros ->; reflexivity|].
  split; [intros e ->; reflexivity|].
  intros Hlen.
  destruct (errs c) as [|e1 [|e2 es]] eqn:Hes; simpl in Hlen; try lia.
  assert (Hmsg : error_Error (ErrorsVal (e1 :: e2 :: es)) =
                 AggregateError_message (map error_Error (e1 :: e2 :: es))).
  { cbn [error_Error]. apply Errors_Error_aggregate. }
  split; [reflexivity|].
  split; [exact Hmsg|].
  intros before e after Hsplit.
  rewrite Hmsg, Hsplit, map_app. cbn [map].
  rewrite AggregateError_message_contains, length_map.
  eexists; eexists; reflexivity.
Qed.

Lemma Err_nil_single_aggregate_witness :
  let c := set_errs (newContext ([] : list (HandlerFunc Sample.GoValue)))
             [ErrorPtr ErrNotFound; OtherError "boom"] in
  Err c = Some (ErrorsVal [ErrorPtr ErrNotFound; OtherError "boom"]) /\
  error_Error (ErrorsVal (errs c)) =
    AggregateError_message ["API Error (404): "; "boom"].
Proof.
  intros c.
  destruct (Err_nil_single_aggregate c) as (_ & _ & H).
  destruct H as (H1 & H2 & _); [simpl; lia|].
  split; [exact H1 | exact H2].
Defined.

(** ** Parameters ([Params.Get]) *)

Lemma ByName_path_param (ps : httprouter_Params) (key : string) :
  ByName ps key =
  match path_param ps key with
  | Some v => v
  | None => ""
  end.
Proof.
  unfold path_param.
  induction ps as [|p ps IH]; simpl; [reflexivity|].
  destruct (String.eqb (Key p) key); [reflexivity | exact IH].
Qed.

(** The converse case: a path parameter with a value shadows the query
    string. *)
Lemma Params_Get_path_wins (this : Params) (key v : string) :
  path_param (Params_p this) key = Some v ->
  v <> "" ->
  Params_Get this key = v.
Proof.
  intros Hp Hv.
  unfold Params_Get. rewrite ByName_path_param, Hp.
  apply String.eqb_neq in Hv. now rewrite Hv.
Qed.

(** C10. [Params.Get(key)] returns the query-string value whenever the path
    parameter for [key] is absent or is the empty string: an empty path
    parameter never masks a query parameter. *)
Theorem Params_Get_empty_path_param (this : Params) (key : string) :
  path_param (Params_p this) key = None \/
  path_param (Params_p this) key = Some "" ->
  Params_Get this key = url_Values_Get (URL_Query (Params_r this)) key.
Proof.
  intros H.
  unfold Params_Get. rewrite ByName_path_param.
  destruct H as [-> | ->]; reflexivity.
Qed.

Lemma Params_Get_empty_path_param_witness :
  Params_Get
    (mkParams
       (mkRequest (fun k => if String.eqb k "id" then ["9"] else []))
       [mkParam "id" ""])
    "id" = "9".
Proof.
  apply (Params_Get_empty_path_param
           (mkParams
              (mkRequest (fun k => if String.eqb k "id" then ["9"] else []))
              [mkParam "id" ""])
           "id").
  right. reflexivity.
Defined.

(** ** The resolution policy ([respond]) *)

Ltac unfold_writer :=
  unfold SetResult, SetPagination, Errorf, set_W, set_Result, set_logs,
    responseWriter_WriteHeader, responseWriter_Write,
    responseWriter_Header_Set; cbn.

Section RespondFacts.

Context {V : Type}.
Variable json_Marshal_value : V -> string + string.
Variable json_Marshal_validation :
  Z -> string -> string -> list (FieldError V) -> string + string.
Variable json_Marshal_Error : Error -> string.
Variable edition : Variant.

Abbreviation Marshal :=
  (json_Marshal json_Marshal_value json_Marshal_validation json_Marshal_Error).
Abbreviation write_out' :=
  (write_out json_Marshal_value json_Marshal_validation json_Marshal_Error).
Abbreviation respond' :=
  (respond json_Marshal_value json_Marshal_validation json_Marshal_Error edition).

(** [respond] is [resolve] followed by [write_out], unless the guard has
    seen a write. *)
Lemma respond_unwritten (c : Context V) :
  written (W c) = false ->
  respond' c = write_out' (fst (resolve edition c)) (snd (resolve edition c)).
Proof.
  intros Hw. unfold respond. rewrite Hw.
  now destruct (resolve edition c).
Qed.

Lemma respond_written (c : Context V) :
  written (W c) = true -> respond' c = c.
Proof. intros Hw. unfold respond. now rewrite Hw. Qed.

(** What [write_out] does, case by case. *)
Lemma write_out_no_result (statusCode : Z) (c : Context V) :
  Result c = None ->
  write_out' statusCode c =
  set_W c (mkResponseWriter
             (w (W c) ++ [CallHeaderSet "Content-Type" "application/json";
                          CallWriteHeader statusCode])
             true).
Proof.
  intros Hr. unfold write_out. cbn. rewrite Hr. cbn.
  unfold_writer. now rewrite <- app_assoc.
Qed.

Lemma write_out_marshalled (statusCode : Z) (c : Context V) (result : Body V)
    (b : string) :
  Result c = Some result ->
  Marshal result = inl b ->
  write_out' statusCode c =
  set_W c (mkResponseWriter
             (w (W c) ++ [CallHeaderSet "Content-Type" "application/json";
                          CallWriteHeader statusCode; CallWrite b])
             true).
Proof.
  intros Hr Hm. unfold write_out. cbn. rewrite Hr, Hm. cbn.
  unfold_writer. now rewrite <- !app_assoc.
Qed.

Lemma write_out_marshal_fails (statusCode : Z) (c : Context V)
    (result : Body V) (err : string) :
  Result c = Some result ->
  Marshal result = inr err ->
  write_out' statusCode c =
  set_W (Errorf c ("json.Marshal error of response body: " +++ err))
        (mkResponseWriter
           (w (W c) ++ [CallHeaderSet "Content-Type" "application/json";
                        CallWriteHeader StatusInternalServerError])
           true).
Proof.
  intros Hr Hm. unfold write_out. cbn. rewrite Hr, Hm. cbn.
  unfold_writer. now rewrite <- !app_assoc.
Qed.

(** [write_out] sends one status line and at most one body, after the
    content type. *)
Lemma write_out_calls (statusCode : Z) (c : Context V) :
  exists calls,
    w (W (write_out' statusCode c)) =
      w (W c) ++ CallHeaderSet "Content-Type" "application/json" :: calls /\
    (calls = [CallWriteHeader statusCode] \/
     calls = [CallWriteHeader StatusInternalServerError] \/
     exists b, calls = [CallWriteHeader statusCode; CallWrite b]).
Proof.
  destruct (Result c) as [result|] eqn:Hr.
  - destruct (Marshal result) as [b|err] eqn:Hm.
    + rewrite (write_out_marshalled _ _ _ _ Hr Hm).
      eexists; split; [reflexivity|]. right; right. now exists b.
    + rewrite (write_out_marshal_fails _ _ _ _ Hr Hm).
      eexists; split; [reflexivity|]. right; left. reflexivity.
  - rewrite (write_out_no_result _ _ Hr).
    eexists; split; [reflexivity|]. now left.
Qed.

(** [resolve] leaves everything but the result and the writer as it was, it
    sets headers only, and at most the pagination header. *)
Lemma resolve_frame (c : Context V) :
  let c1 := snd (resolve edition c) in
  handlers c1 = handlers c /\ index c1 = index c /\ errs c1 = errs c /\
  logs c1 = logs c /\ events c1 = events c /\ pagination c1 = pagination c /\
  written (W c1) = written (W c) /\
  w (W c1) =
    w (W c) ++
    match errs c, edition, pagination c with
    | [], part_003, Some p =>
        [CallHeaderSet "X-Pagination-Next" (URL_String (Pagination_Next p))]
    | _, _, _ => []
    end.
Proof.
  clear json_Marshal_value json_Marshal_validation json_Marshal_Error.
  unfold resolve, Err.
  destruct (errs c) as [|e [|e' es]] eqn:He.
  - destruct edition; cbn; [now rewrite app_nil_r|].
    destruct (pagination c) as [p|] eqn:Hp; cbn; rewrite ?Hp, ?He;
      now rewrite ?app_nil_r.
  - destruct e as [apierr| | |]; cbn; rewrite ?He, ?app_nil_r; try tauto.
    destruct (negb (Message apierr =? "")); cbn; rewrite ?He; tauto.
  - cbn. rewrite He, app_nil_r. tauto.
Qed.

Lemma resolve_no_error (c : Context V) :
  errs c = [] ->
  fst (resolve edition c) = StatusOK /\
  Result (snd (resolve edition c)) = Result c.
Proof.
  intros He. unfold resolve, Err. rewrite He.
  destruct edition; cbn; [tauto|].
  destruct (pagination c); cbn; tauto.
Qed.


(** C4, amended.  When the guard has seen no write and the accumulated
    error is a [ValidationError], the result set by the handlers is replaced
    by the body with status code 422, error code "multi", the fixed message
    and the field errors of the [ValidationError] in their order; if that
    body serializes, status 422 and the body are written; if it does not,
    status 500 is written, without a body, and the failure is logged. *)
Theorem respond_ValidationError (c : Context V) (verr : ValidationError V) :
  written (W c) = false ->
  Err c = Some (ValidationErrorPtr verr) ->
  let body :=
    ValidationBody 422 "multi"
      "Validation error. See errors array for details." (Errors verr) in
  Result (respond' c) = Some body /\
  match Marshal body with
  | inl b =>
      w (W (respond' c)) =
        w (W c) ++ [CallHeaderSet "Content-Type" "application/json";
                    CallWriteHeader 422; CallWrite b] /\
      logs (respond' c) = logs c
  | inr err =>
      w (W (respond' c)) =
        w (W c) ++ [CallHeaderSet "Content-Type" "application/json";
                    CallWriteHeader 500] /\
      logs (respond' c) =
        logs c ++ ["json.Marshal error of response body: " +++ err]
  end.
Proof.
  intros Hw He body.
  rewrite (respond_unwritten c Hw).
  unfold resolve. rewrite He. cbn [fst snd].
  set (c1 := SetResult (SetResult c None) _).
  assert (Hr : Result c1 = Some body) by reflexivity.
  destruct (Marshal body) as [b|err] eqn:Hm.
  - rewrite (write_out_marshalled _ _ _ _ Hr Hm). cbn. tauto.
  - rewrite (write_out_marshal_fails _ _ _ _ Hr Hm). cbn. tauto.
Qed.

(** The writes of the policy for an [*Error], by the message it carries. *)
Lemma respond_Error_calls (c : Context V) (apierr : Error) :
  written (W c) = false ->
  Err c = Some (ErrorPtr apierr) ->
  (Message apierr = "" ->
   w (W (respond' c)) =
     w (W c) ++ [CallHeaderSet "Content-Type" "application/json";
                 CallWriteHeader (StatusCode apierr)]) /\
  (Message apierr <> "" ->
   w (W (respond' c)) =
     w (W c) ++ [CallHeaderSet "Content-Type" "application/json";
                 CallWriteHeader (StatusCode apierr);
                 CallWrite (json_Marshal_Error apierr)]).
Proof.
  intros Hw He.
  rewrite (respond_unwritten c Hw).
  unfold resolve. rewrite He. cbn [fst snd].
  split; intros Hm.
  - rewrite Hm. cbn [String.eqb negb].
    now rewrite write_out_no_result.
  - apply String.eqb_neq in Hm. rewrite Hm. cbn [negb].
    now rewrite write_out_marshalled
      with (result := ErrorBody apierr) (b := json_Marshal_Error apierr).
Qed.

(** C5, amended.  When the guard has seen no write and the accumulated
    error is an [*Error], the status written is the one the error carries,
    and the error is written as the body exactly when its message is not
    empty; in particular the not-found singleton gives 404 and no body. *)
Theorem respond_StatusError (c : Context V) (apierr : Error) :
  written (W c) = false ->
  Err c = Some (ErrorPtr apierr) ->
  (Message apierr = "" ->
   w (W (respond' c)) =
     w (W c) ++ [CallHeaderSet "Content-Type" "application/json";
                 CallWriteHeader (StatusCode apierr)]) /\
  (Message apierr <> "" ->
   w (W (respond' c)) =
     w (W c) ++ [CallHeaderSet "Content-Type" "application/json";
                 CallWriteHeader (StatusCode apierr);
                 CallWrite (json_Marshal_Error apierr)]) /\
  (apierr = ErrNotFound ->
   w (W (respond' c)) =
     w (W c) ++ [CallHeaderSet "Content-Type" "application/json";
                 CallWriteHeader 404]).
Proof.
  intros Hw He.
  destruct (respond_Error_calls c apierr Hw He) as (Hempty & Hfull).
  split; [exact Hempty|]. split; [exact Hfull|].
  intros ->. now apply Hempty.
Qed.

End RespondFacts.

Section RespondHeaders.

Context {V : Type}.
Variable json_Marshal_value : V -> string + string.
Variable json_Marshal_validation :
  Z -> string -> string -> list (FieldError V) -> string + string.
Variable json_Marshal_Error : Error -> string.
Variable edition : Variant.

Abbreviation Marshal' :=
  (json_Marshal json_Marshal_value json_Marshal_validation json_Marshal_Error).
Abbreviation write_out'' :=
  (write_out json_Marshal_value json_Marshal_validation json_Marshal_Error).
Abbreviation respond'' :=
  (respond json_Marshal_value json_Marshal_validation json_Marshal_Error edition).

Lemma status_lines_app (l1 l2 : list WriterCall) :
  status_lines (l1 ++ l2) = status_lines l1 ++ status_lines l2.
Proof. apply flat_map_app. Qed.

Lemma bodies_app (l1 l2 : list WriterCall) :
  bodies (l1 ++ l2) = bodies l1 ++ bodies l2.
Proof. apply flat_map_app. Qed.

Lemma headers_set_app (l1 l2 : list WriterCall) :
  headers_set (l1 ++ l2) = headers_set l1 ++ headers_set l2.
Proof. apply flat_map_app. Qed.

(** The calls that [respond] adds when the guard has seen no write: the
    headers of [resolve], the content type, then the status line and
    possibly the body. *)
Lemma respond_calls (c : Context V) :
  written (W c) = false ->
  exists tail,
    w (W (respond'' c)) =
      (w (W (snd (resolve edition c)))
       ++ CallHeaderSet "Content-Type" "application/json" :: tail) /\
    headers_set tail = [] /\
    length (status_lines tail) = 1 /\
    length (bodies tail) <= 1 /\
    status_lines tail =
      [match Result (snd (resolve edition c)) with
       | Some result =>
           match Marshal' result with
           | inl _ => fst (resolve edition c)
           | inr _ => StatusInternalServerError
           end
       | None => fst (resolve edition c)
       end].
Proof.
  intros Hw. rewrite (respond_unwritten _ _ _ _ c Hw).
  set (statusCode := fst (resolve edition c)).
  set (c1 := snd (resolve edition c)).
  destruct (Result c1) as [result|] eqn:Hr.
  - destruct (Marshal' result) as [b|err] eqn:Hm.
    + rewrite (write_out_marshalled _ _ _ _ _ _ _ Hr Hm).
      eexists; split; [reflexivity|]. cbn. auto.
    + rewrite (write_out_marshal_fails _ _ _ _ _ _ _ Hr Hm).
      eexists; split; [reflexivity|]. cbn. auto.
  - rewrite (write_out_no_result _ _ _ _ _ Hr).
    eexists; split; [reflexivity|]. cbn. auto.
Qed.


End RespondHeaders.

(** *** The policy on concrete requests *)


Lemma respond_ValidationError_witness :
  exists b,
    Sample.marshal_validation 422 "multi"
      "Validation error. See errors array for details."
      [mkFieldError "name" "required" "" None] = inl b /\
    w (W (Sample.serve' part_003 [Sample.sets_ok; Sample.invalid])) =
      [CallHeaderSet "Content-Type" "application/json"; CallWriteHeader 422;
       CallWrite b].
Proof.
  unfold Sample.serve', serve.
  set (c := Next part_003 (newContext [Sample.sets_ok; Sample.invalid])).
  destruct (respond_ValidationError Sample.marshal_value
              Sample.marshal_validation Sample.marshal_Error part_003 c
              Sample.name_required eq_refl eq_refl) as [_ H].
  vm_compute in H. destruct H as [H _].
  eexists. split; [reflexivity|]. exact H.
Defined.

(** C4 as stated fails on two requests whose accumulated error is a
    [ValidationError]: one whose handler had written to the response before
    it returned the error (the policy writes nothing, the only status line
    is the handler's 200), and one whose field error carries data that
    [encoding/json] refuses (the policy writes 500 and no body). *)
Lemma respond_ValidationError_counterexample :
  (let c := Next context_go (newContext [Sample.writes_200_then_invalid]) in
   Err c = Some (ValidationErrorPtr Sample.name_required) /\
   Sample.respond' context_go c = c /\
   status_lines (w (W (Sample.respond' context_go c))) = [200%Z] /\
   bodies (w (W (Sample.respond' context_go c))) = []) /\
  (let c := Next context_go (newContext [Sample.invalid_chan]) in
   Err c = Some (ValidationErrorPtr Sample.unserializable) /\
   written (W c) = false /\
   status_lines (w (W (Sample.respond' context_go c))) = [500%Z] /\
   bodies (w (W (Sample.respond' context_go c))) = []).
Proof. vm_compute. repeat split. Qed.

Lemma respond_StatusError_witness :
  w (W (Sample.serve' context_go [Sample.sets_ok; Sample.not_found])) =
    [CallHeaderSet "Content-Type" "application/json"; CallWriteHeader 404] /\
  w (W (Sample.serve' context_go [Sample.teapot])) =
    [CallHeaderSet "Content-Type" "application/json"; CallWriteHeader 418;
     CallWrite (Sample.marshal_Error (NewError 418 "short and stout"))].
Proof.
  unfold Sample.serve', serve. split.
  - set (c := Next context_go (newContext [Sample.sets_ok; Sample.not_found])).
    destruct (respond_StatusError Sample.marshal_value
                Sample.marshal_validation Sample.marshal_Error context_go c
                ErrNotFound eq_refl eq_refl) as (_ & _ & H).
    rewrite (H eq_refl). reflexivity.
  - set (c := Next context_go (newContext [Sample.teapot])).
    destruct (respond_StatusError Sample.marshal_value
                Sample.marshal_validation Sample.marshal_Error context_go c
                (NewError 418 "short and stout") eq_refl eq_refl)
      as (_ & H & _).
    rewrite H; [reflexivity | discriminate].
Defined.

(** C5 as stated fails on a request whose handler wrote to the response
    and then returned the not-found singleton: the policy writes nothing,
    and the only status line is the handler's 200, not 404. *)
Lemma respond_StatusError_counterexample :
  let c := Next context_go (newContext [Sample.writes_200_then_not_found]) in
  Err c = Some (ErrorPtr ErrNotFound) /\
  Sample.respond' context_go c = c /\
  status_lines (w (W (Sample.respond' context_go c))) = [200%Z].
Proof. vm_compute. repeat split. Qed.



(** ** The router ([createContext], [route], [wrap]) *)

Section RouterFacts.

Context {V BaseContext : Type}.
Variable json_Marshal_value : V -> string + string.
Variable json_Marshal_validation :
  Z -> string -> string -> list (FieldError V) -> string + string.
Variable json_Marshal_Error : Error -> string.
Variable edition : Variant.

Abbreviation route' :=
  (route json_Marshal_value json_Marshal_validation json_Marshal_Error edition
         BaseContext).

(** Without a hook on the router or above it, [createContext] panics. *)
Lemma createContext_no_hook (this : Router V BaseContext) :
  no_hook this ->
  forall r, createContext this r = Panic "No CreateContext func is set".
Proof.
  revert this. fix IH 1.
  intros [cc [p|] t pa m]; cbn; intros [Hc Hp] r; cbn in Hc; subst cc.
  - now apply IH.
  - reflexivity.
Qed.

(** With a hook, it returns what the nearest hook returns: it never panics. *)
Lemma createContext_hook (this : Router V BaseContext) (f : CreateContextFn BaseContext) :
  CreateContext this = Some f ->
  forall r, createContext this r = Done (f r).
Proof. intros H r. destruct this; cbn in *. now rewrite H. Qed.

(** [router()] only ever panics on the nil dereference. *)
Lemma router_panic (this : Router V BaseContext) (msg : string) :
  router this = Panic msg ->
  msg = "runtime error: invalid memory address or nil pointer dereference".
Proof.
  revert this. fix IH 1.
  intros [cc [p|] [t|] pa m]; cbn; intros H; try discriminate.
  - now apply IH with (this := p).
  - now inversion H.
Qed.

(** [route] does not call the hook: its outcome is that of [router()]. *)
Lemma route_outcome (this : Router V BaseContext) (method path : string)
    (handlers : list (HandlerFunc V)) :
  match router this with
  | Done t =>
      route' this method path handlers =
      Done (mkRegistration t method (Router_path this +++ path)
              (wrap json_Marshal_value json_Marshal_validation
                    json_Marshal_Error edition BaseContext
                    (createContext this) (middleware this ++ handlers)))
  | Panic msg => route' this method path handlers = Panic msg
  end.
Proof. unfold route. now destruct (router this). Qed.

(** C9, amended.  On a router with no [CreateContext] hook on it nor on
    any ancestor, registering a route does not fail for the lack of a hook:
    whenever the route table is found the registration is made, under the
    router's path prefix; the panic "No CreateContext func is set" is what
    every request dispatched to the registered handle ends in, before a
    context is built or a handler run. *)
Theorem route_without_hook_panics_at_dispatch (this : Router V BaseContext)
    (method path : string) (handlers : list (HandlerFunc V)) :
  no_hook this ->
  route' this method path handlers <> Panic "No CreateContext func is set" /\
  forall t,
    router this = Done t ->
    exists reg,
      route' this method path handlers = Done reg /\
      reg_table reg = t /\
      reg_method reg = method /\
      reg_path reg = Router_path this +++ path /\
      forall r, reg_handle reg r = Panic "No CreateContext func is set".
Proof.
  intros Hno.
  pose proof (route_outcome this method path handlers) as Hr.
  split.
  - destruct (router this) as [t|msg] eqn:Ht; rewrite Hr; [discriminate|].
    apply router_panic in Ht. subst msg. discriminate.
  - intros t Ht. rewrite Ht in Hr.
    eexists. split; [exact Hr|]. cbn.
    repeat split.
    intros r. unfold wrap. now rewrite createContext_no_hook.
Qed.

End RouterFacts.

Lemma route_without_hook_panics_at_dispatch_witness :
  no_hook Sample.hookless_sub /\
  exists reg,
    Get Sample.marshal_value Sample.marshal_validation Sample.marshal_Error
        context_go unit Sample.hookless_sub "/ping" [Sample.sets_ok] = Done reg /\
    reg_path reg = "/api/ping" /\
    reg_handle reg Sample.any_request = Panic "No CreateContext func is set".
Proof.
  assert (Hno : no_hook Sample.hookless_sub) by (cbn; tauto).
  split; [exact Hno|].
  destruct (route_without_hook_panics_at_dispatch Sample.marshal_value
              Sample.marshal_validation Sample.marshal_Error context_go
              Sample.hookless_sub "GET" "/ping" [Sample.sets_ok] Hno)
    as [_ H].
  destruct (H 0 eq_refl) as (reg & Hreg & _ & _ & Hpath & Hpanic).
  exists reg. split; [exact Hreg|]. split; [exact Hpath | apply Hpanic].
Defined.

(** C9 as stated fails: on the router that [NewRouter] returns, once its
    [CreateContext] field is set to nil, [Get] registers the route; the
    panic comes when a request reaches the route. *)
Lemma route_without_hook_counterexample :
  no_hook Sample.hookless /\
  exists reg,
    Get Sample.marshal_value Sample.marshal_validation Sample.marshal_Error
        context_go unit Sample.hookless "/ping" [Sample.sets_ok] = Done reg /\
    reg_handle reg Sample.any_request = Panic "No CreateContext func is set".
Proof.
  split; [cbn; tauto|].
  eexists. split; [reflexivity|]. reflexivity.
Qed.

(** ** Chain execution ([Next], [Stop], handlers) *)

Section Invariants.

Context {V : Type}.
Variable edition : Variant.

(** *** A rule for invariants

    A property of the context that every operation open to a handler
    preserves, and every step of [Next] too, holds throughout the
    execution of the chain. *)

Section Rule.

Variable P : Context V -> Prop.
Hypothesis P_Result : forall c x, P c -> P (set_Result c x).
Hypothesis P_pagination : forall c x, P c -> P (set_pagination c x).
Hypothesis P_Header : forall c k v,
  P c -> P (set_W c (responseWriter_Header_Set (W c) k v)).
Hypothesis P_WriteHeader : forall c n,
  P c -> P (set_W c (responseWriter_WriteHeader (W c) n)).
Hypothesis P_Write : forall c b,
  P c -> P (set_W c (responseWriter_Write (W c) b)).
Hypothesis P_Stop : forall c, P c -> P (Stop c).
Hypothesis P_advance : forall c,
  P c -> index c < length (handlers c) -> P (advance c).
Hypothesis P_return_nil : forall c i,
  P c -> P (set_events c (events c ++ [Returned i None])).
Hypothesis P_return_err : forall c i e,
  P c ->
  P (Stop (set_errs (set_events c (events c ++ [Returned i (Some e)]))
                    (errs c ++ [e]))).

Lemma call_invariant (next : Context V -> Context V) (p : Prog V) :
  (forall c, P c -> P (next c)) ->
  forall c, P c -> P (fst (call edition next p c)).
Proof.
  intros Hnext.
  induction p as [err|val k IH|pg k IH|key value k IH|n k IH|b k IH|k IH|k IH
                 |k IH|k IH]; intros c HP; cbn [call].
  - exact HP.
  - apply IH. now apply P_Result.
  - destruct edition; apply IH; [exact HP | now apply P_pagination].
  - apply IH. now apply P_Header.
  - apply IH. now apply P_WriteHeader.
  - apply IH. now apply P_Write.
  - apply IH. now apply Hnext.
  - apply IH. now apply P_Stop.
  - now apply IH.
  - now apply IH.
Qed.

(** Two ways of continuing the chain that agree wherever [P] holds give a
    handler the same execution. *)
Lemma call_ext (next1 next2 : Context V -> Context V) (p : Prog V) :
  (forall c, P c -> P (next1 c)) ->
  (forall c, P c -> next1 c = next2 c) ->
  forall c, P c -> call edition next1 p c = call edition next2 p c.
Proof.
  intros Hnext Hagree.
  induction p as [err|val k IH|pg k IH|key value k IH|n k IH|b k IH|k IH|k IH
                 |k IH|k IH]; intros c HP; cbn [call].
  - reflexivity.
  - apply IH. now apply P_Result.
  - destruct edition; apply IH; [exact HP | now apply P_pagination].
  - apply IH. now apply P_Header.
  - apply IH. now apply P_WriteHeader.
  - apply IH. now apply P_Write.
  - rewrite <- (Hagree c HP). apply IH. now apply Hnext.
  - apply IH. now apply P_Stop.
  - now apply IH.
  - now apply IH.
Qed.

Lemma Next_fuel_invariant (fuel : nat) :
  forall c, P c -> P (Next_fuel edition fuel c).
Proof.
  induction fuel as [|fuel IH]; intros c HP; cbn [Next_fuel]; [exact HP|].
  unfold Next_body.
  destruct (length (handlers c) <=? index c)%nat eqn:Hle; [exact HP|].
  apply Nat.leb_gt in Hle.
  destruct (nth_error (handlers c) (index c)) as [handler|]; [|exact HP].
  pose proof (call_invariant (Next_fuel edition fuel) handler IH (advance c)
                (P_advance c HP Hle)) as HP2.
  unfold do, invoke.
  destruct (call edition (Next_fuel edition fuel) handler (advance c))
    as [c2 err]. cbn [fst] in HP2.
  destruct edition, err as [e|].
  - exact (P_return_err c2 (index c) e HP2).
  - destruct (written (W (set_events c2 (events c2 ++ [Returned (index c) None])))).
    + apply P_Stop. now apply P_return_nil.
    + apply IH. now apply P_return_nil.
  - exact (P_return_err c2 (index c) e HP2).
  - apply IH. now apply P_return_nil.
Qed.

End Rule.

(** *** The chain is fixed and the cursor moves forward within it *)

Lemma frame_invariant (H : list (HandlerFunc V)) (lo fuel : nat) :
  forall c, frame H lo c -> frame H lo (Next_fuel edition fuel c).
Proof.
  apply Next_fuel_invariant; unfold frame, Stop, advance; cbn;
    intros; try tauto.
  - intuition (subst; lia).
  - intuition (subst; lia).
  - intuition (subst; lia).
Qed.

Lemma frame_call (H : list (HandlerFunc V)) (lo fuel : nat) (p : Prog V) :
  forall c,
    frame H lo c ->
    frame H lo (fst (call edition (Next_fuel edition fuel) p c)).
Proof.
  apply call_invariant; unfold frame, Stop; cbn; intros; try tauto.
  - intuition (subst; lia).
  - now apply frame_invariant.
Qed.

Lemma frame_call_ext (H : list (HandlerFunc V)) (lo : nat)
    (next1 next2 : Context V -> Context V) (p : Prog V) :
  (forall c, frame H lo c -> frame H lo (next1 c)) ->
  (forall c, frame H lo c -> next1 c = next2 c) ->
  forall c, frame H lo c -> call edition next1 p c = call edition next2 p c.
Proof.
  apply call_ext; unfold frame, Stop; cbn; intros; try tauto.
  intuition (subst; lia).
Qed.

(** *** Fuel

    Once the chain is exhausted [Next] does nothing, and any fuel at least
    [len(handlers) - index] gives the same execution. *)

Lemma Next_fuel_exhausted (fuel : nat) (c : Context V) :
  Exhausted c -> Next_fuel edition fuel c = c.
Proof.
  unfold Exhausted. intros H.
  destruct fuel; cbn [Next_fuel]; [reflexivity|].
  unfold Next_body. apply Nat.leb_le in H. now rewrite H.
Qed.

Lemma Next_fuel_S (fuel : nat) :
  forall c : Context V,
    in_range c ->
    length (handlers c) - index c <= fuel ->
    Next_fuel edition (S fuel) c = Next_fuel edition fuel c.
Proof.
  unfold in_range.
  induction fuel as [|fuel IH]; intros c Hr Hf.
  - rewrite !Next_fuel_exhausted; [reflexivity | unfold Exhausted; lia ..].
  - change (Next_body edition (Next_fuel edition (S fuel)) c =
            Next_body edition (Next_fuel edition fuel) c).
    unfold Next_body.
    destruct (length (handlers c) <=? index c)%nat eqn:Hle; [reflexivity|].
    apply Nat.leb_gt in Hle.
    destruct (nth_error (handlers c) (index c)) as [handler|]; [|reflexivity].
    remember (handlers c) as H eqn:HH. remember (index c) as i eqn:Hi.
    assert (Hfr : frame H (i + 1) (advance c))
      by (unfold frame, advance; cbn; subst H i; repeat split; lia).
    assert (Hagree : forall c', frame H (i + 1) c' ->
              Next_fuel edition (S fuel) c' = Next_fuel edition fuel c').
    { intros c' (Hh & Hlo & Hhi). apply IH; rewrite ?Hh; subst H i; lia. }
    assert (Hcall : call edition (Next_fuel edition (S fuel)) handler (advance c)
                    = call edition (Next_fuel edition fuel) handler (advance c)).
    { apply frame_call_ext with (H := H) (lo := i + 1); try assumption.
      apply frame_invariant. }
    pose proof (frame_call H (i + 1) fuel handler _ Hfr) as Hfr2.
    unfold do, invoke. cbv zeta. rewrite Hcall.
    destruct (call edition (Next_fuel edition fuel) handler (advance c))
      as [c2 err]. cbn [fst] in Hfr2.
    assert (Hfr3 : frame H (i + 1)
                     (set_events c2 (events c2 ++ [Returned i err])))
      by exact Hfr2.
    destruct edition, err as [e|]; try reflexivity.
    + destruct (written _); [reflexivity | now apply Hagree].
    + now apply Hagree.
Qed.

Lemma Next_fuel_enough (fuel : nat) (c : Context V) :
  in_range c ->
  length (handlers c) - index c <= fuel ->
  Next_fuel edition fuel c = Next edition c.
Proof.
  intros Hr Hf. unfold Next.
  induction Hf as [|fuel Hf IH]; [reflexivity|].
  now rewrite Next_fuel_S.
Qed.

Lemma Next_frame (H : list (HandlerFunc V)) (lo : nat) (c : Context V) :
  frame H lo c -> frame H lo (Next edition c).
Proof. apply frame_invariant. Qed.

Lemma frame_in_range (H : list (HandlerFunc V)) (lo : nat) (c : Context V) :
  frame H lo c -> in_range c.
Proof. unfold frame, in_range. intros (-> & _ & Hhi). exact Hhi. Qed.

(** [Next], with the fuel it takes, satisfies the recursive equation of the
    source: it is its own body. *)
Lemma Next_unfold (c : Context V) :
  in_range c ->
  Next edition c = Next_body edition (Next edition) c.
Proof.
  intros Hr. unfold Next at 1.
  destruct (length (handlers c) - index c) as [|fuel] eqn:Hf.
  - cbn [Next_fuel]. unfold Next_body, in_range in *.
    assert (Hle : (length (handlers c) <=? index c)%nat = true)
      by (apply Nat.leb_le; lia).
    now rewrite Hle.
  - cbn [Next_fuel]. unfold Next_body, in_range in *.
    destruct (length (handlers c) <=? index c)%nat eqn:Hle; [reflexivity|].
    destruct (nth_error (handlers c) (index c)) as [handler|]; [|reflexivity].
    remember (handlers c) as H eqn:HH. remember (index c) as i eqn:Hi.
    assert (Hfr : frame H (i + 1) (advance c))
      by (unfold frame, advance; cbn; subst H i; repeat split; lia).
    assert (Hagree : forall c', frame H (i + 1) c' ->
              Next_fuel edition fuel c' = Next edition c').
    { intros c' Hc'. apply Next_fuel_enough.
      - now apply frame_in_range with (H := H) (lo := i + 1).
      - destruct Hc' as (Hh & Hlo & Hhi). rewrite Hh. subst H i. lia. }
    assert (Hcall : call edition (Next_fuel edition fuel) handler (advance c)
                    = call edition (Next edition) handler (advance c)).
    { apply frame_call_ext with (H := H) (lo := i + 1); try assumption.
      apply frame_invariant. }
    pose proof (frame_call H (i + 1) fuel handler _ Hfr) as Hfr2.
    unfold do, invoke. cbv zeta. rewrite <- Hcall.
    destruct (call edition (Next_fuel edition fuel) handler (advance c))
      as [c2 err]. cbn [fst] in Hfr2.
    assert (Hfr3 : frame H (i + 1)
                     (set_events c2 (events c2 ++ [Returned i err])))
      by exact Hfr2.
    destruct edition, err as [e|]; try reflexivity.
    + destruct (written _); [reflexivity | now apply Hagree].
    + now apply Hagree.
Qed.

(** Once the chain is exhausted, [Next] does nothing, and no code that runs
    afterwards, whatever it calls, enters a handler, moves the cursor or
    records an error. *)
Lemma Next_exhausted (c : Context V) :
  Exhausted c -> Next edition c = c.
Proof. apply Next_fuel_exhausted. Qed.

Lemma call_exhausted (p : Prog V) :
  forall c : Context V,
    index c = length (handlers c) ->
    let c' := fst (call edition (Next edition) p c) in
    index c' = length (handlers c') /\
    handlers c' = handlers c /\
    events c' = events c /\
    errs c' = errs c.
Proof.
  induction p as [err|val k IH|pg k IH|key value k IH|n k IH|b k IH|k IH|k IH
                 |k IH|k IH]; intros c Hc; cbn [call]; cbv zeta.
  - cbn. tauto.
  - now apply (IH (SetResult c (option_map UserValue val))).
  - destruct edition; [now apply IH|].
    now apply (IH (SetPagination c pg)).
  - now apply (IH (set_W c (responseWriter_Header_Set (W c) key value))).
  - now apply (IH (set_W c (responseWriter_WriteHeader (W c) n))).
  - now apply (IH (set_W c (responseWriter_Write (W c) b))).
  - rewrite Next_exhausted by (unfold Exhausted; lia). now apply IH.
  - destruct (IH (Stop c)) as (H1 & H2 & H3 & H4); [reflexivity|].
    cbn in *. tauto.
  - now apply IH.
  - now apply IH.
Qed.

(** *** The guard is faithful *)

Lemma guard_faithful_Next (c : Context V) :
  guard_faithful c -> guard_faithful (Next edition c).
Proof.
  apply Next_fuel_invariant; unfold guard_faithful; cbn; intros; auto;
    try discriminate.
  rewrite status_lines_app, bodies_app. cbn.
  rewrite !app_nil_r. auto.
Qed.

Lemma guard_faithful_newContext (hs : list (HandlerFunc V)) :
  guard_faithful (Next edition (newContext hs)).
Proof. apply guard_faithful_Next. split; reflexivity. Qed.

End Invariants.

Section OneResponse.

Context {V : Type}.
Variable json_Marshal_value : V -> string + string.
Variable json_Marshal_validation :
  Z -> string -> string -> list (FieldError V) -> string + string.
Variable json_Marshal_Error : Error -> string.
Variable edition : Variant.

Abbreviation respond_ :=
  (respond json_Marshal_value json_Marshal_validation json_Marshal_Error edition).


End OneResponse.


(** *** The bookkeeping of a run *)

Section Trace.

Context {V : Type}.
Variable edition : Variant.
Variable k : nat.

Lemma errors_of_app (l1 l2 : list (Event V)) :
  errors_of (l1 ++ l2) = errors_of l1 ++ errors_of l2.
Proof. apply flat_map_app. Qed.

Lemma returned_at_index (ev : Event V) :
  returned_at k ev = true -> event_index ev = k.
Proof. destruct ev; cbn; [discriminate|]. apply Nat.eqb_eq. Qed.

Lemma filter_returned_none (l : list (Event V)) :
  Forall (fun ev => event_index ev <> k) l ->
  filter (returned_at k) l = [].
Proof.
  induction 1 as [|ev l Hev _ IH]; cbn; [reflexivity|].
  destruct (returned_at k ev) eqn:Hr; [|exact IH].
  apply returned_at_index in Hr. contradiction.
Qed.

Lemma orderly_silent (c c' : Context V) :
  in_range c ->
  handlers c' = handlers c ->
  index c <= index c' ->
  index c' <= length (handlers c) ->
  events c' = events c ->
  errs c' = errs c ->
  orderly k c c'.
Proof.
  intros Hr Hh Hlo Hhi Hev Her.
  repeat split; try assumption.
  exists []. rewrite !app_nil_r.
  repeat split; try assumption; cbn; auto; contradiction.
Qed.

Lemma orderly_in_range (c c' : Context V) :
  orderly k c c' -> in_range c' /\ handlers c' = handlers c.
Proof.
  intros (Hh & _ & Hhi & _). unfold in_range. rewrite Hh. auto.
Qed.

Lemma orderly_trans (c c1 c2 : Context V) :
  orderly k c c1 -> orderly k c1 c2 -> orderly k c c2.
Proof.
  intros (Hh1 & Hlo1 & Hhi1 & new1 & Hev1 & Her1 & Hb1 & Hs1 & Hc1 & Hk1)
         (Hh2 & Hlo2 & Hhi2 & new2 & Hev2 & Her2 & Hb2 & Hs2 & Hc2 & Hk2).
  rewrite Hh1 in Hhi2, Hk2.
  rewrite Forall_forall in Hb1, Hb2.
  split; [congruence|]. split; [lia|]. split; [exact Hhi2|].
  exists (new1 ++ new2).
  split; [now rewrite Hev2, Hev1, app_assoc|].
  split; [now rewrite Her2, Her1, errors_of_app, app_assoc|].
  split; [|split; [|split]].
  - apply Forall_forall. intros ev Hin.
    apply in_app_or in Hin. destruct Hin as [Hin|Hin].
    + specialize (Hb1 ev Hin). lia.
    + specialize (Hb2 ev Hin). lia.
  - intros j r Hin. apply in_or_app.
    apply in_app_or in Hin. destruct Hin as [Hin|Hin]; eauto.
  - rewrite filter_app, length_app.
    destruct (filter (returned_at k) new1) as [|ev l] eqn:Hf; [exact Hc2|].
    assert (Hin : In ev (filter (returned_at k) new1))
      by (rewrite Hf; now left).
    apply filter_In in Hin. destruct Hin as (Hin & Hret).
    apply returned_at_index in Hret. specialize (Hb1 ev Hin).
    rewrite filter_returned_none; [cbn in *; lia|].
    apply Forall_forall. intros ev' Hin'. specialize (Hb2 ev' Hin'). lia.
  - intros e Hin.
    apply in_app_or in Hin. destruct Hin as [Hin|Hin].
    + destruct (Hk1 e Hin) as (Hx & Hst).
      split; [lia|].
      intros j Hj. apply in_app_or in Hj. destruct Hj as [Hj|Hj]; [auto|].
      specialize (Hb2 _ Hj). lia.
    + destruct (Hk2 e Hin) as (Hx & Hst).
      split; [exact Hx|].
      intros j Hj. apply in_app_or in Hj. destruct Hj as [Hj|Hj]; [|auto].
      specialize (Hb1 _ Hj). specialize (Hb2 _ Hin). cbn in *. lia.
Qed.

(** A handler that does not call [Next] leaves the bookkeeping alone. *)
Lemma call_silent (next : Context V -> Context V) (p : Prog V) :
  next_free p ->
  forall c : Context V,
    in_range c ->
    let c' := fst (call edition next p c) in
    handlers c' = handlers c /\
    index c <= index c' /\
    index c' <= length (handlers c) /\
    events c' = events c /\
    errs c' = errs c.
Proof.
  unfold in_range.
  induction p as [err|val p IH|pg p IH|key value p IH|n p IH|b p IH|p IH|p IH
                 |p IH|p IH]; cbn [next_free call]; intros Hnf c Hr; cbv zeta.
  - cbn. auto.
  - now apply (IH Hnf (SetResult c (option_map UserValue val))).
  - destruct edition; [now apply IH|].
    now apply (IH Hnf (SetPagination c pg)).
  - now apply (IH Hnf (set_W c (responseWriter_Header_Set (W c) key value))).
  - now apply (IH Hnf (set_W c (responseWriter_WriteHeader (W c) n))).
  - now apply (IH Hnf (set_W c (responseWriter_Write (W c) b))).
  - contradiction.
  - destruct (IH Hnf (Stop c)) as (H1 & H2 & H3 & H4 & H5);
      [cbn; lia|]. cbn in *. repeat split; auto; lia.
  - now apply IH.
  - now apply IH.
Qed.

Lemma call_orderly (H : list (HandlerFunc V)) (next : Context V -> Context V)
    (p : Prog V) :
  (forall c, in_range c -> handlers c = H -> orderly k c (next c)) ->
  forall c : Context V,
    in_range c -> handlers c = H ->
    orderly k c (fst (call edition next p c)).
Proof.
  intros Hnext.
  assert (Hstep : forall (c c1 : Context V) q,
            in_range c -> handlers c = H ->
            orderly k c c1 ->
            (forall c, in_range c -> handlers c = H ->
                       orderly k c (fst (call edition next q c))) ->
            orderly k c (fst (call edition next q c1))).
  { intros c c1 q Hr Hh Ho IHq.
    destruct (orderly_in_range _ _ Ho) as (Hr1 & Hh1).
    apply orderly_trans with (c1 := c1); [exact Ho|].
    apply IHq; [exact Hr1 | congruence]. }
  induction p as [err|val p IH|pg p IH|key value p IH|n p IH|b p IH|p IH|p IH
                 |p IH|p IH]; intros c Hr Hh; cbn [call].
  - apply orderly_silent; auto.
  - apply Hstep; auto. apply orderly_silent; auto.
  - destruct edition; [now apply IH|].
    apply Hstep; auto. apply orderly_silent; auto.
  - apply Hstep; auto. apply orderly_silent; auto.
  - apply Hstep; auto. apply orderly_silent; auto.
  - apply Hstep; auto. apply orderly_silent; auto.
  - apply Hstep; auto.
  - apply Hstep; auto. apply orderly_silent; auto; cbn; auto.
  - now apply IH.
  - now apply IH.
Qed.

(** One handler of the chain, from the moment it is entered to the moment
    its return has been dealt with. *)
Lemma orderly_invoke (c c2 c' : Context V) (r : option (error V)) :
  in_range c ->
  index c < length (handlers c) ->
  orderly k (advance c) c2 ->
  (index c = k -> r <> None -> events c2 = events (advance c)) ->
  handlers c' = handlers c2 ->
  index c2 <= index c' ->
  index c' <= length (handlers c) ->
  (r <> None -> index c' = length (handlers c)) ->
  events c' = events c2 ++ [Returned (index c) r] ->
  errs c' = errs c2 ++ errors_of [Returned (index c) r] ->
  orderly k c c'.
Proof.
  intros Hr Hlt (Hh & Hlo & Hhi & new & Hev & Her & Hb & Hs & Hc & Hk)
         Hsil Hh' Hlo' Hhi' Hstop Hev' Her'.
  cbn in Hh, Hlo, Hhi, Hev, Her, Hb, Hk.
  rewrite Forall_forall in Hb.
  split; [congruence|]. split; [lia|]. split; [exact Hhi'|].
  exists (Started (index c) :: new ++ [Returned (index c) r]).
  split; [|split; [|split; [|split; [|split]]]].
  - rewrite Hev', Hev, <- !app_assoc. reflexivity.
  - rewrite Her', Her.
    change (errors_of (Started (index c) :: new ++ [Returned (index c) r]))
      with (errors_of (new ++ [Returned (index c) r])).
    now rewrite errors_of_app, app_assoc.
  - apply Forall_forall. intros ev [<-|Hin]; [cbn; lia|].
    apply in_app_or in Hin. destruct Hin as [Hin|[<-|[]]].
    + specialize (Hb ev Hin). lia.
    + cbn. lia.
  - intros j r' [Heq|Hin]; [discriminate|].
    apply in_app_or in Hin. destruct Hin as [Hin|[Heq|[]]].
    + right. apply in_or_app. left. eauto.
    + inversion Heq; subst. now left.
  - cbn [filter returned_at]. rewrite filter_app, length_app.
    cbn [filter returned_at].
    destruct (Nat.eqb_spec (index c) k) as [Heq|Hne]; cbn [length].
    + rewrite filter_returned_none; [cbn; lia|].
      apply Forall_forall. intros ev Hin. specialize (Hb ev Hin). lia.
    + lia.
  - intros e [Heq|Hin]; [discriminate|].
    apply in_app_or in Hin. destruct Hin as [Hin|[Heq|[]]].
    + destruct (Hk e Hin) as (Hx & Hst).
      split; [lia|].
      intros j [Heq|Hj].
      * inversion Heq; subst j. specialize (Hb _ Hin). cbn in Hb. lia.
      * apply in_app_or in Hj. destruct Hj as [Hj|[Heq|[]]];
          [auto | discriminate].
    + inversion Heq as [[Hi Hre]].
      split; [apply Hstop; rewrite Hre; discriminate|].
      assert (Hnil : new = []).
      { specialize (Hsil Hi). rewrite Hre in Hsil.
        rewrite Hsil in Hev by discriminate. cbn in Hev.
        rewrite <- (app_nil_r (events c ++ [Started (index c)])) in Hev at 1.
        apply app_inv_head in Hev. now symmetry. }
      rewrite Hnil. cbn. intros j [Hj|[Hj|[]]]; [|discriminate].
      inversion Hj. lia.
Qed.

(** The whole run of [Next], provided the handler at position [k] does not
    call [Next] itself. *)
Lemma Next_fuel_orderly (fuel : nat) :
  forall c : Context V,
    in_range c ->
    (forall hk, nth_error (handlers c) k = Some hk -> next_free hk) ->
    orderly k c (Next_fuel edition fuel c).
Proof.
  induction fuel as [|fuel IH]; intros c Hr Hnf; cbn [Next_fuel].
  - apply orderly_silent; auto.
  - unfold Next_body.
    destruct (length (handlers c) <=? index c)%nat eqn:Hle;
      [apply orderly_silent; auto|].
    apply Nat.leb_gt in Hle.
    destruct (nth_error (handlers c) (index c)) as [handler|] eqn:Hnth;
      [|apply orderly_silent; auto].
    cbv zeta.
    assert (Hr1 : in_range (advance c)) by (unfold in_range; cbn; lia).
    assert (Hnext : forall c', in_range c' -> handlers c' = handlers c ->
                               orderly k c' (Next_fuel edition fuel c')).
    { intros c' Hr' Hh'. apply IH; [exact Hr'|]. now rewrite Hh'. }
    pose proof (call_orderly (handlers c) (Next_fuel edition fuel)
                  handler Hnext (advance c) Hr1 eq_refl) as Ho.
    assert (Hsil : index c = k ->
              events (fst (call edition (Next_fuel edition fuel) handler
                                (advance c))) = events (advance c)).
    { intros Hi. rewrite Hi in Hnth.
      apply (call_silent (Next_fuel edition fuel) handler (Hnf _ Hnth)
               (advance c) Hr1). }
    unfold do, invoke.
    destruct (call edition (Next_fuel edition fuel) handler (advance c))
      as [c2 err]. cbn [fst] in Ho, Hsil.
    destruct (orderly_in_range _ _ Ho) as (Hr2 & Hh2).
    pose proof Ho as (_ & Hlo2 & Hhi2 & _).
    unfold in_range in Hr2. cbn in Hh2, Hlo2, Hhi2.
    set (c3 := set_events c2 (events c2 ++ [Returned (index c) err])).
    assert (Hnil : err = None -> orderly k c c3).
    { intros ->. apply orderly_invoke with (c2 := c2) (r := None); cbn; auto;
        try lia; try congruence. now rewrite app_nil_r. }
    assert (Herr : forall e, err = Some e ->
              orderly k c (Stop (set_errs c3 (errs c3 ++ [e])))).
    { intros e ->. apply orderly_invoke with (c2 := c2) (r := Some e); cbn;
        auto; try lia; try congruence; rewrite Hh2; lia. }
    assert (Hr3 : in_range c3 /\ handlers c3 = handlers c)
      by (unfold in_range; cbn; split; [lia | congruence]).
    destruct Hr3 as (Hr3 & Hh3).
    destruct edition, err as [e|].
    + now apply Herr.
    + destruct (written (W c3)).
      * apply orderly_trans with (c1 := c3); [now apply Hnil|].
        apply orderly_silent; cbn; auto; unfold in_range in *; lia.
      * apply orderly_trans with (c1 := c3); [now apply Hnil|].
        now apply Hnext.
    + now apply Herr.
    + apply orderly_trans with (c1 := c3); [now apply Hnil|].
      now apply Hnext.
Qed.

Lemma Next_orderly (c : Context V) :
  in_range c ->
  (forall hk, nth_error (handlers c) k = Some hk -> next_free hk) ->
  orderly k c (Next edition c).
Proof. apply Next_fuel_orderly. Qed.

End Trace.

(** *** Errors and direct writes end the chain *)

Section ChainEnd.

Context {V : Type}.

Lemma filter_returned_In (k : nat) (l : list (Event V)) (r : option (error V)) :
  In (Returned k r) l -> 1 <= length (filter (returned_at k) l).
Proof.
  intros Hin.
  assert (H : In (Returned k r) (filter (returned_at k) l)).
  { apply filter_In. split; [exact Hin|]. cbn. apply Nat.eqb_refl. }
  destruct (filter (returned_at k) l); [contradiction | cbn; lia].
Qed.

Lemma errors_of_none (l : list (Event V)) :
  (forall j e, ~ In (Returned j (Some e)) l) -> errors_of l = [].
Proof.
  induction l as [|ev l IH]; intros H; [reflexivity|].
  destruct ev as [i|i [e|]]; cbn.
  - apply IH. intros j e Hin. apply (H j e). now right.
  - exfalso. apply (H i e). now left.
  - apply IH. intros j e Hin. apply (H j e). now right.
Qed.

(** If the handler at [k] returned the error [e], returned only once, and
    no other handler returned an error, then [e] is the one error
    returned. *)
Lemma errors_of_only (k : nat) (l : list (Event V)) (e : error V) :
  In (Returned k (Some e)) l ->
  length (filter (returned_at k) l) <= 1 ->
  (forall j e', In (Returned j (Some e')) l -> j = k) ->
  errors_of l = [e].
Proof.
  induction l as [|ev l IH]; intros Hin Hc Hall; [contradiction|].
  destruct ev as [i|i r].
  - destruct Hin as [Heq|Hin]; [discriminate|].
    cbn in Hc. change (errors_of (Started i :: l)) with (errors_of l).
    apply IH; auto.
    intros j e' Hj. apply (Hall j e'). now right.
  - cbn [filter returned_at] in Hc.
    destruct (Nat.eqb_spec i k) as [->|Hne].
    + cbn [length] in Hc.
      assert (Hnone : forall r', ~ In (Returned k r') l).
      { intros r' Hr'. apply filter_returned_In in Hr'. lia. }
      destruct Hin as [Heq|Hin]; [|now apply Hnone in Hin].
      inversion Heq; subst r.
      change (errors_of (Returned k (Some e) :: l)) with (e :: errors_of l).
      rewrite errors_of_none; [reflexivity|].
      intros j e' Hj.
      assert (j = k) by (apply (Hall j e'); now right). subst j.
      now apply Hnone in Hj.
    + destruct Hin as [Heq|Hin]; [inversion Heq; contradiction|].
      destruct r as [e'|].
      * exfalso. apply Hne. apply (Hall i e'). now left.
      * change (errors_of (Returned i None :: l)) with (errors_of l).
        apply IH; auto.
        intros j e'' Hj. apply (Hall j e''). now right.
Qed.

(** In the context.go edition, a handler that returns nil after a write
    to the guarded writer ends the chain: [Next] only calls [Stop], the
    chain is exhausted, no handler was entered after the return, and none
    is entered by whatever runs afterwards. *)
Lemma Next_stops_after_direct_write (c c2 : Context V) (handler : HandlerFunc V) :
  in_range c ->
  nth_error (handlers c) (index c) = Some handler ->
  call_handler context_go (index c) handler (advance c) = (c2, None) ->
  written (W c2) = true ->
  Next context_go c = Stop c2 /\
  index (Next context_go c) = length (handlers (Next context_go c)) /\
  events (Next context_go c) = events c2 /\
  forall p,
    events (fst (call context_go (Next context_go) p (Next context_go c)))
    = events c2.
Proof.
  intros Hr Hnth Hcall Hw.
  assert (Hlt : index c < length (handlers c))
    by (apply nth_error_Some; congruence).
  assert (Heq : Next context_go c = Stop c2).
  { rewrite Next_unfold by exact Hr. unfold Next_body.
    apply Nat.leb_gt in Hlt. rewrite Hlt, Hnth. cbv zeta.
    unfold call_handler in Hcall. rewrite Hcall. now rewrite Hw. }
  rewrite Heq.
  split; [reflexivity|]. split; [reflexivity|]. split; [reflexivity|].
  intros p.
  now destruct (call_exhausted context_go p (Stop c2) eq_refl)
    as (_ & _ & Hev & _).
Qed.

(** In the part_003 edition the guard plays no part in [Next]: after a
    handler that returns nil, the chain goes on. *)
Lemma Next_part_003_ignores_guard (c c2 : Context V) (handler : HandlerFunc V) :
  in_range c ->
  nth_error (handlers c) (index c) = Some handler ->
  call_handler part_003 (index c) handler (advance c) = (c2, None) ->
  Next part_003 c = Next part_003 c2.
Proof.
  intros Hr Hnth Hcall.
  assert (Hlt : index c < length (handlers c))
    by (apply nth_error_Some; congruence).
  rewrite Next_unfold by exact Hr. unfold Next_body.
  apply Nat.leb_gt in Hlt. rewrite Hlt, Hnth. cbv zeta.
  unfold call_handler in Hcall. unfold do. now rewrite Hcall.
Qed.

End ChainEnd.

(** C1, on the part_003 edition.  The handler at position 0 writes a status
    line to the guarded writer and returns nil; [Next] nevertheless enters
    the handler at position 1, which the context.go edition never does
    ([Next_stops_after_direct_write]). *)
Theorem Next_part_003_continues_after_direct_write :
  let hs := [Sample.writes_200; Sample.sets_ok] in
  call_handler part_003 0 Sample.writes_200 (advance (newContext hs)) =
    (mkContext (mkResponseWriter [CallWriteHeader 200] true) None None hs 1 []
               [] [Started 0; Returned 0 None],
     None) /\
  events (Next part_003 (newContext hs)) =
    [Started 0; Returned 0 None; Started 1; Returned 1 None] /\
  events (Next context_go (newContext hs)) = [Started 0; Returned 0 None] /\
  index (Next context_go (newContext hs)) = 2.
Proof. vm_compute. repeat split. Qed.

Section StatusErrorStops.

Context {V : Type}.
Variable json_Marshal_value : V -> string + string.
Variable json_Marshal_validation :
  Z -> string -> string -> list (FieldError V) -> string + string.
Variable json_Marshal_Error : Error -> string.
Variable edition : Variant.

Abbreviation respond_' :=
  (respond json_Marshal_value json_Marshal_validation json_Marshal_Error edition).

(** C2, amended.  In a chain run on a fresh context, if the handler at
    position [k] returns an [*Error] without having called [Next] itself, no
    handler before it returned an error, and no handler wrote to the guarded
    writer, then no handler after position [k] is ever entered, the error is
    the one entry of the list of recorded errors, and the one status line
    written, by the resolution policy, carries the status of the error. *)
Theorem StatusError_stops_chain (hs : list (HandlerFunc V)) (k : nat)
    (hk : HandlerFunc V) (apierr : Error) :
  let c := Next edition (newContext hs) in
  nth_error hs k = Some hk ->
  next_free hk ->
  In (Returned k (Some (ErrorPtr apierr))) (events c) ->
  (forall j r, j < k -> In (Returned j r) (events c) -> r = None) ->
  written (W c) = false ->
  (forall j, In (Started j) (events c) -> j <= k) /\
  errs c = [ErrorPtr apierr] /\
  status_lines (w (W (respond_' c))) = [StatusCode apierr].
Proof.
  intros c Hnth Hnf Hin Hbefore Hw.
  assert (Ho : orderly k (newContext hs) c).
  { apply Next_orderly; [unfold in_range; cbn; lia|].
    cbn. intros hk' Hk'. congruence. }
  destruct Ho as (_ & _ & _ & new & Hev & Her & _ & Hs & Hc & Hk).
  change (events c = new) in Hev. change (errs c = errors_of new) in Her.
  rewrite Hev in Hin, Hbefore. rewrite Hev.
  destruct (Hk _ Hin) as (_ & Hst).
  assert (Herrs : errs c = [ErrorPtr apierr]).
  { rewrite Her. apply errors_of_only with (k := k); auto.
    intros j e' Hj.
    assert (j <= k) by (apply Hst; now apply Hs with (r := Some e')).
    destruct (Nat.eq_dec j k) as [|Hne]; [assumption|].
    assert (Hlt : j < k) by lia.
    specialize (Hbefore j (Some e') Hlt Hj). discriminate. }
  split; [exact Hst|]. split; [exact Herrs|].
  assert (HErr : Err c = Some (ErrorPtr apierr))
    by (unfold Err; now rewrite Herrs).
  destruct (guard_faithful_newContext edition hs Hw) as (Hs0 & _).
  fold c in Hs0.
  destruct (respond_Error_calls json_Marshal_value json_Marshal_validation
              json_Marshal_Error edition c apierr Hw HErr) as (He & Hne).
  destruct (string_dec (Message apierr) "") as [Hm|Hm].
  - rewrite (He Hm), status_lines_app, Hs0. reflexivity.
  - rewrite (Hne Hm), status_lines_app, Hs0. reflexivity.
Qed.

End StatusErrorStops.

Lemma StatusError_stops_chain_witness :
  let hs := [DoNext (Return None); Sample.teapot; Sample.sets_ok] in
  let c := Next context_go (newContext hs) in
  events c =
    [Started 0; Started 1;
     Returned 1 (Some (ErrorPtr (NewError 418 "short and stout")));
     Returned 0 None] /\
  (forall j, In (Started j) (events c) -> j <= 1) /\
  errs c = [ErrorPtr (NewError 418 "short and stout")] /\
  status_lines (w (W (Sample.respond' context_go c))) = [418%Z].
Proof.
  intros hs c.
  split; [reflexivity|].
  apply (StatusError_stops_chain Sample.marshal_value Sample.marshal_validation
           Sample.marshal_Error context_go hs 1 Sample.teapot
           (NewError 418 "short and stout")).
  - reflexivity.
  - exact I.
  - cbn. auto.
  - intros j r Hj Hin. cbn in Hin.
    destruct Hin as [H|[H|[H|[H|[]]]]]; inversion H; subst;
      [lia | reflexivity].
  - reflexivity.
Defined.

(** C2 as stated fails on two chains whose first handler returns an
    [*Error] with status 418: one in which that handler had called [Next]
    before returning, so that the second handler was entered; and one in
    which it had written to the response before returning, so that the
    policy writes nothing and no status line 418 is ever sent. *)
Lemma StatusError_stops_chain_counterexample :
  (let c := Next context_go
              (newContext [Sample.next_then_teapot; Sample.sets_ok]) in
   In (Returned 0 (Some (ErrorPtr (NewError 418 "short and stout"))))
      (events c) /\
   In (Started 1) (events c)) /\
  (let c := Next context_go
              (newContext [Sample.writes_then_teapot; Sample.sets_ok]) in
   In (Returned 0 (Some (ErrorPtr (NewError 418 "short and stout"))))
      (events c) /\
   Sample.respond' context_go c = c /\
   status_lines (w (W (Sample.respond' context_go c))) = []).
Proof. vm_compute. intuition. Qed.
(** * Further properties *)

(** ** The course of the chain *)

Section ChainCourse.

Context {V : Type}.
Variable edition : Variant.

Lemma Next_fuel_exhausts (fuel : nat) :
  forall c : Context V,
    in_range c ->
    length (handlers c) - index c <= fuel ->
    index (Next_fuel edition fuel c) = length (handlers c) /\
    handlers (Next_fuel edition fuel c) = handlers c.
Proof.
  unfold in_range.
  induction fuel as [|fuel IH]; intros c Hr Hf; cbn [Next_fuel]; [split; [lia | reflexivity]|].
  unfold Next_body.
  destruct (length (handlers c) <=? index c)%nat eqn:Hle.
  { apply Nat.leb_le in Hle. split; [lia | reflexivity]. }
  apply Nat.leb_gt in Hle.
  destruct (nth_error (handlers c) (index c)) as [handler|] eqn:Hn.
  2:{ apply nth_error_None in Hn. lia. }
  remember (handlers c) as H eqn:HH. remember (index c) as i eqn:Hi.
  assert (Hfr : frame H (i + 1) (advance c))
    by (unfold frame, advance; cbn; subst H i; repeat split; lia).
  pose proof (frame_call edition H (i + 1) fuel handler _ Hfr) as Hfr2.
  unfold do, invoke.
  destruct (call edition (Next_fuel edition fuel) handler (advance c))
    as [c2 err]. cbn [fst] in Hfr2.
  destruct Hfr2 as (Hh & Hlo & Hhi).
  assert (Hgo : forall c3 : Context V,
            handlers c3 = H -> index c3 = index c2 ->
            index (Next_fuel edition fuel c3) = length H /\
            handlers (Next_fuel edition fuel c3) = H).
  { intros c3 Hh3 Hi3.
    destruct (IH c3) as (A & B); rewrite ?Hh3, ?Hi3; try lia.
    split; congruence. }
  destruct edition, err as [e|]; cbn.
  - split; congruence.
  - destruct (written (W c2)); cbn; [split; congruence|].
    now apply Hgo.
  - split; congruence.
  - now apply Hgo.
Qed.

Lemma Next_exhausts (c : Context V) :
  Exhausted (Next edition c) /\ handlers (Next edition c) = handlers c.
Proof.
  destruct (Nat.le_gt_cases (index c) (length (handlers c))) as [Hr|Hr].
  - destruct (Next_fuel_exhausts (length (handlers c) - index c) c Hr
                (Nat.le_refl _)) as (A & B).
    unfold Next, Exhausted. rewrite B, A. split; [lia | reflexivity].
  - assert (Hn : Next edition c = c).
    { apply Next_exhausted. unfold Exhausted. lia. }
    rewrite Hn. unfold Exhausted. split; [lia | reflexivity].
Qed.

(** X1.  Whatever the handlers do, a call of [Next()] returns with the
    chain exhausted and the chain itself unchanged; calling [Next()] again
    then does nothing. *)
Theorem Next_runs_to_the_end (c : Context V) :
  Exhausted (Next edition c) /\
  handlers (Next edition c) = handlers c /\
  Next edition (Next edition c) = Next edition c.
Proof.
  destruct (Next_exhausts c) as (A & B). repeat split; try assumption.
  now apply Next_exhausted.
Qed.

End ChainCourse.

Section ChainOrder.

Context {V : Type}.
Variable edition : Variant.

Lemma started_app (l1 l2 : list (Event V)) :
  started (l1 ++ l2) = started l1 ++ started l2.
Proof. apply flat_map_app. Qed.

Lemma StronglySorted_snoc (l : list nat) (i : nat) :
  StronglySorted lt l ->
  Forall (fun j => j < i) l ->
  StronglySorted lt (l ++ [i]).
Proof.
  induction 1 as [|a l Hs IH Ha]; intros Hb; cbn.
  - repeat constructor.
  - inversion Hb as [|? ? Hai Hl]; subst.
    constructor; [now apply IH|].
    apply Forall_app. split; [exact Ha | now repeat constructor].
Qed.

(** The handlers entered so far lie before the cursor and were entered in
    the order of the chain: an invariant of the execution. *)
Lemma started_sorted_invariant (fuel : nat) :
  forall c : Context V,
    in_range c /\
    StronglySorted lt (started (events c)) /\
    Forall (fun j => j < index c) (started (events c)) ->
    let c' := Next_fuel edition fuel c in
    in_range c' /\
    StronglySorted lt (started (events c')) /\
    Forall (fun j => j < index c') (started (events c')).
Proof.
  cbv zeta.
  apply (Next_fuel_invariant edition
           (fun c => in_range c /\
                     StronglySorted lt (started (events c)) /\
                     Forall (fun j => j < index c) (started (events c))));
    unfold in_range, Stop, advance; cbn; intros; try tauto.
  - destruct H as (Hr & Hs & Hb). repeat split; [lia | exact Hs |].
    eapply Forall_impl; [|exact Hb]. cbn. intros; lia.
  - destruct H as (Hr & Hs & Hb). rewrite flat_map_app. cbn.
    repeat split; [lia | now apply StronglySorted_snoc |].
    apply Forall_app. split.
    + eapply Forall_impl; [|exact Hb]. cbn. intros; lia.
    + repeat constructor. lia.
  - rewrite flat_map_app. cbn. now rewrite app_nil_r.
  - destruct H as (Hr & Hs & Hb). rewrite flat_map_app. cbn.
    rewrite app_nil_r. repeat split; [lia | exact Hs |].
    eapply Forall_impl; [|exact Hb]. cbn. intros; lia.
Qed.

(** X2.  In the execution of a chain from a fresh context, whatever the
    handlers do (calling [Next()] or [Stop()] any number of times,
    writing, failing), the handlers that are entered are entered in the
    order of the chain, none of them twice, and all of them are handlers
    of the chain. *)
Theorem handlers_entered_once_in_order (hs : list (HandlerFunc V)) :
  let entered := started (events (Next edition (newContext hs))) in
  StronglySorted lt entered /\
  NoDup entered /\
  Forall (fun j => j < length hs) entered.
Proof.
  cbv zeta.
  destruct (started_sorted_invariant (length hs - 0) (newContext hs))
    as (Hr & Hs & Hb).
  { unfold in_range. cbn. repeat split; [lia | constructor | constructor]. }
  change (Next_fuel edition (length hs - 0) (newContext hs))
    with (Next edition (newContext hs)) in *.
  destruct (Next_exhausts edition (newContext hs)) as (_ & Hh).
  unfold in_range in Hr. rewrite Hh in Hr. cbn in Hr.
  split; [exact Hs|]. split.
  - clear Hb. induction Hs as [|a l Hs IH Ha]; constructor; [|exact IH].
    intros Hin. rewrite Forall_forall in Ha. specialize (Ha a Hin). lia.
  - eapply Forall_impl; [|exact Hb]. cbn. intros; lia.
Qed.

(** *** Entries and returns nest *)

Lemma balanced_app (l1 l2 : list (Event V)) :
  balanced l1 -> balanced l2 -> balanced (l1 ++ l2).
Proof.
  induction 1 as [|i err inner rest Hi IHi Hr IHr]; intros H2; [exact H2|].
  cbn. rewrite <- app_assoc. cbn. constructor; [exact Hi | now apply IHr].
Qed.

Lemma call_balanced (next : Context V -> Context V) (p : Prog V) :
  (forall c, exists new, events (next c) = events c ++ new /\ balanced new) ->
  forall c,
    exists new,
      events (fst (call edition next p c)) = events c ++ new /\ balanced new.
Proof.
  intros Hnext.
  assert (Hrefl : forall (c : Context V) l, l = events c ->
            exists new, l = events c ++ new /\ balanced new).
  { intros c l ->. exists []. rewrite app_nil_r. split; [reflexivity|constructor]. }
  induction p as [err|val k IH|pg k IH|key value k IH|n k IH|b k IH|k IH|k IH
                 |k IH|k IH]; intros c; cbn [call].
  - now apply Hrefl.
  - apply (IH (SetResult c (option_map UserValue val))).
  - destruct edition; [apply IH | apply (IH (SetPagination c pg))].
  - apply (IH (set_W c (responseWriter_Header_Set (W c) key value))).
  - apply (IH (set_W c (responseWriter_WriteHeader (W c) n))).
  - apply (IH (set_W c (responseWriter_Write (W c) b))).
  - destruct (Hnext c) as (new1 & E1 & B1).
    destruct (IH (next c)) as (new2 & E2 & B2).
    exists (new1 ++ new2). rewrite E2, E1, app_assoc.
    split; [reflexivity | now apply balanced_app].
  - apply (IH (Stop c)).
  - apply IH.
  - apply IH.
Qed.

Lemma Next_fuel_balanced (fuel : nat) :
  forall c : Context V,
    exists new,
      events (Next_fuel edition fuel c) = events c ++ new /\ balanced new.
Proof.
  assert (Hrefl : forall (c : Context V) l, l = events c ->
            exists new, l = events c ++ new /\ balanced new).
  { intros c l ->. exists []. rewrite app_nil_r. split; [reflexivity|constructor]. }
  induction fuel as [|fuel IH]; intros c; cbn [Next_fuel]; [now apply Hrefl|].
  unfold Next_body.
  destruct (length (handlers c) <=? index c)%nat; [now apply Hrefl|].
  destruct (nth_error (handlers c) (index c)) as [handler|]; [|now apply Hrefl].
  destruct (call_balanced (Next_fuel edition fuel) handler IH (advance c))
    as (inner & Ein & Bin).
  unfold do, invoke.
  destruct (call edition (Next_fuel edition fuel) handler (advance c))
    as [c2 err]. cbn [fst] in Ein. cbn in Ein.
  assert (Hstop : forall c3 : Context V,
            events c3 = events c2 ++ [Returned (index c) err] ->
            exists new, events c3 = events c ++ new /\ balanced new).
  { intros c3 E3. exists (Started (index c) :: inner ++ Returned (index c) err :: []).
    split; [|constructor; [exact Bin | constructor]].
    rewrite E3, Ein, <- !app_assoc. reflexivity. }
  assert (Hgo : forall c3 : Context V,
            events c3 = events c2 ++ [Returned (index c) err] ->
            exists new,
              events (Next_fuel edition fuel c3) = events c ++ new /\
              balanced new).
  { intros c3 E3. destruct (IH c3) as (rest & Er & Br).
    exists (Started (index c) :: inner ++ Returned (index c) err :: rest).
    split; [|constructor; assumption].
    rewrite Er, E3, Ein, <- !app_assoc. reflexivity. }
  destruct edition, err as [e|].
  - now apply Hstop.
  - destruct (written _); [now apply Hstop | now apply Hgo].
  - now apply Hstop.
  - now apply Hgo.
Qed.

Lemma Next_balanced (c : Context V) :
  exists new,
    events (Next edition c) = events c ++ new /\ balanced new.
Proof. apply Next_fuel_balanced. Qed.


(** X4.  After [Stop()], [Next()] does nothing, and whatever the code
    that runs afterwards on the context does, calls of [Next()] included,
    no handler is entered, no error is recorded, and the chain stays
    exhausted. *)
Theorem Stop_ends_the_chain (p : Prog V) (c : Context V) :
  let c' := fst (call edition (Next edition) p (Stop c)) in
  Next edition (Stop c) = Stop c /\
  Exhausted c' /\
  events c' = events c /\
  errs c' = errs c.
Proof.
  cbv zeta. split.
  - apply Next_exhausted. unfold Exhausted. cbn. lia.
  - destruct (call_exhausted edition p (Stop c)) as (A & B & C & D);
      [reflexivity|].
    unfold Exhausted. rewrite A. cbn in C, D. repeat split; [lia|assumption..].
Qed.

(** X5.  The errors that the context holds after the chain has run are
    the errors that the handlers returned, in the order of their return:
    none is lost, none is recorded twice, and none comes from elsewhere. *)
Theorem errors_recorded_are_errors_returned (hs : list (HandlerFunc V)) :
  let c := Next edition (newContext hs) in
  errs c = errors_of (events c) /\
  forall e, In e (errs c) <-> exists i, In (Returned i (Some e)) (events c).
Proof.
  cbv zeta.
  assert (H : errs (Next edition (newContext hs)) =
              errors_of (events (Next edition (newContext hs)))).
  { unfold Next. generalize (length (handlers (newContext hs))
                             - index (newContext hs)). intros fuel.
    apply (Next_fuel_invariant edition
             (fun c => errs c = errors_of (events c)));
      cbn; intros; auto.
    - rewrite flat_map_app. cbn. now rewrite app_nil_r.
    - rewrite flat_map_app. cbn. now rewrite app_nil_r.
    - rewrite flat_map_app. cbn. now rewrite H. }
  split; [exact H|].
  intros e. rewrite H. unfold errors_of. rewrite in_flat_map. split.
  - intros (ev & Hin & He). destruct ev as [i|i [e'|]]; cbn in He;
      try contradiction.
    destruct He as [->|[]]. now exists i.
  - intros (i & Hin). exists (Returned i (Some e)). split; [exact Hin|].
    now left.
Qed.

End ChainOrder.

(** *** Chains of handlers that pass the request on *)

Section PassingChain.

Context {V : Type}.
Variable edition : Variant.

Lemma passed_on_refl (c c' : Context V) :
  in_range c ->
  handlers c' = handlers c -> errs c' = errs c ->
  written (W c') = written (W c) -> index c' = index c ->
  started (events c') = started (events c) ->
  passed_on c c'.
Proof.
  unfold passed_on, in_range. intros Hr -> -> -> -> ->.
  rewrite Nat.sub_diag. cbn. rewrite app_nil_r. repeat split; lia.
Qed.

Lemma passed_on_trans (c c1 c2 : Context V) :
  passed_on c c1 -> passed_on c1 c2 -> passed_on c c2.
Proof.
  unfold passed_on.
  intros (Hh & He & Hw & Hlo & Hhi & Hs) (Hh' & He' & Hw' & Hlo' & Hhi' & Hs').
  rewrite Hh in *. repeat split; try congruence; try lia.
  rewrite Hs', Hs, <- app_assoc. f_equal.
  replace (index c2 - index c)
    with ((index c1 - index c) + (index c2 - index c1)) by lia.
  rewrite seq_app. do 2 f_equal. lia.
Qed.

Lemma passed_on_call (H : list (HandlerFunc V)) (next : Context V -> Context V)
    (c0 : Context V) :
  handlers c0 = H ->
  written (W c0) = false ->
  (forall c,
     handlers c = H -> in_range c -> written (W c) = false ->
     passed_on c (next c)) ->
  forall p c,
    passes p ->
    passed_on c0 c ->
    passed_on c0 (fst (call edition next p c)) /\
    snd (call edition next p c) = None.
Proof.
  intros H0 Hw0 Hnext.
  assert (Hsame : forall c c' : Context V,
            passed_on c0 c ->
            handlers c' = handlers c -> errs c' = errs c ->
            written (W c') = written (W c) -> index c' = index c ->
            events c' = events c ->
            passed_on c0 c').
  { unfold passed_on. intros c c' Hc -> -> -> -> ->. exact Hc. }
  induction p as [err|val k IH|pg k IH|key value k IH|n k IH|b k IH|k IH|k IH
                 |k IH|k IH]; intros c Hp Hc; cbn [call]; cbn [passes] in Hp;
    try contradiction.
  - destruct err; [contradiction|]. split; [exact Hc | reflexivity].
  - apply IH; [exact Hp|]. now apply (Hsame c).
  - destruct edition; apply IH; try exact Hp; [exact Hc|]. now apply (Hsame c).
  - apply IH; [exact Hp|]. now apply (Hsame c).
  - apply IH; [exact Hp|].
    apply passed_on_trans with (c1 := c); [exact Hc|].
    destruct Hc as (Hh & He & Hw & Hlo & Hhi & Hs).
    apply Hnext; unfold in_range; congruence.
  - now apply IH.
  - now apply IH.
Qed.

Lemma passed_on_Next_fuel (H : list (HandlerFunc V)) :
  Forall passes H ->
  forall fuel (c : Context V),
    handlers c = H -> in_range c -> written (W c) = false ->
    passed_on c (Next_fuel edition fuel c).
Proof.
  intros Hall.
  induction fuel as [|fuel IH]; intros c Hh Hr Hw; cbn [Next_fuel].
  { now apply passed_on_refl. }
  unfold Next_body.
  destruct (length (handlers c) <=? index c)%nat eqn:Hle.
  { now apply passed_on_refl. }
  apply Nat.leb_gt in Hle.
  destruct (nth_error (handlers c) (index c)) as [handler|] eqn:Hn.
  2:{ now apply passed_on_refl. }
  assert (Hp : passes handler).
  { rewrite Forall_forall in Hall. apply Hall. rewrite <- Hh.
    eapply nth_error_In. exact Hn. }
  assert (Hadv : passed_on c (advance c)).
  { unfold passed_on, advance.
    cbn [handlers errs W index events set_events set_index].
    rewrite started_app. cbn [started flat_map app].
    replace (index c + 1 - index c) with 1 by lia. cbn [seq].
    repeat split; lia. }
  assert (Hadv0 : passed_on (advance c) (advance c)).
  { apply passed_on_refl; try reflexivity. unfold in_range, advance. cbn. lia. }
  destruct (passed_on_call H (Next_fuel edition fuel) (advance c) Hh Hw IH
              handler (advance c) Hp Hadv0) as (Hcall & Herr).
  unfold do, invoke.
  destruct (call edition (Next_fuel edition fuel) handler (advance c))
    as [c2 err]. cbn [fst snd] in Hcall, Herr. subst err.
  set (c3 := set_events c2 (events c2 ++ [Returned (index c) None])).
  assert (H23 : passed_on (advance c) c3).
  { destruct Hcall as (A & B & C & D & E & F).
    unfold passed_on, c3. cbn [handlers errs W index events set_events].
    rewrite started_app. cbn [started flat_map]. rewrite app_nil_r.
    repeat split; assumption. }
  assert (Hgo : passed_on c (Next_fuel edition fuel c3)).
  { apply passed_on_trans with (c1 := c3).
    - apply passed_on_trans with (c1 := advance c); assumption.
    - destruct H23 as (A & B & C & D & E & F).
      apply IH; unfold in_range; [exact (eq_trans A Hh) | | exact (eq_trans C Hw)].
      rewrite A. exact E. }
  assert (Hw3 : written (W c3) = false).
  { destruct H23 as (_ & _ & C & _). exact (eq_trans C Hw). }
  destruct edition.
  - rewrite Hw3. exact Hgo.
  - exact Hgo.
Qed.

Lemma passing_chain_runs (hs : list (HandlerFunc V)) :
  Forall passes hs ->
  let c := Next edition (newContext hs) in
  started (events c) = seq 0 (length hs) /\
  errs c = [] /\
  written (W c) = false.
Proof.
  intros Hall. cbv zeta.
  pose proof (passed_on_Next_fuel hs Hall (length hs - 0) (newContext hs)
                eq_refl) as Hp.
  change (Next_fuel edition (length hs - 0) (newContext hs))
    with (Next edition (newContext hs)) in Hp.
  destruct Hp as (A & B & C & D & E & F);
    [unfold in_range; cbn; lia | reflexivity |].
  destruct (Next_exhausts edition (newContext hs)) as (Hx & Hh).
  unfold Exhausted in Hx. rewrite Hh in Hx.
  cbn [newContext handlers index events errs W written started flat_map app]
    in *.
  replace (index (Next edition (newContext hs))) with (length hs) in F by lia.
  rewrite Nat.sub_0_r in F. auto.
Qed.

End PassingChain.

Section PassingChainResponse.

Context {V : Type}.
Variable json_Marshal_value : V -> string + string.
Variable json_Marshal_validation :
  Z -> string -> string -> list (FieldError V) -> string + string.
Variable json_Marshal_Error : Error -> string.
Variable edition : Variant.


(** X7.  Once something was written through the guarded writer, the
    guard's flag stays up for the rest of the chain, and the resolution
    policy then leaves the response alone, whatever the handlers that run
    afterwards return or store. *)
Theorem direct_write_silences_respond (c : Context V) :
  written (W c) = true ->
  let c' := Next edition c in
  written (W c') = true /\
  respond json_Marshal_value json_Marshal_validation json_Marshal_Error
    edition c' = c'.
Proof.
  intros Hw. cbv zeta.
  assert (Hw' : written (W (Next edition c)) = true).
  { revert c Hw. unfold Next. intros c.
    generalize (length (handlers c) - index c). intros fuel. revert c.
    apply (Next_fuel_invariant edition (fun c => written (W c) = true));
      cbn; intros; auto. }
  split; [exact Hw'|]. unfold respond. now rewrite Hw'.
Qed.

(** X8.  [respond] always leaves the guard's flag up, so that a second
    call of [respond] does nothing: a request is answered by the policy at
    most once. *)
Theorem respond_once (c : Context V) :
  let respond' := respond json_Marshal_value json_Marshal_validation
                    json_Marshal_Error edition in
  written (W (respond' c)) = true /\
  respond' (respond' c) = respond' c.
Proof.
  cbv zeta.
  assert (Hw : written (W (respond json_Marshal_value json_Marshal_validation
                              json_Marshal_Error edition c)) = true).
  { destruct (written (W c)) eqn:Hc.
    - rewrite respond_written; assumption.
    - rewrite respond_unwritten by assumption.
      unfold write_out. cbn.
      destruct (Result (snd (resolve edition c))) as [result|]; [|reflexivity].
      destruct (json_Marshal _ _ _ result); reflexivity. }
  split; [exact Hw|]. now apply respond_written.
Qed.

(** X9.  When an error was recorded, the response of the policy does
    not depend on the result that handlers stored: an error response
    never carries a handler's result. *)
Theorem error_response_drops_result (c : Context V) (x : option (Body V)) :
  written (W c) = false ->
  errs c <> [] ->
  respond json_Marshal_value json_Marshal_validation json_Marshal_Error
    edition (set_Result c x) =
  respond json_Marshal_value json_Marshal_validation json_Marshal_Error
    edition c.
Proof.
  intros Hw He. unfold respond. cbn [set_Result W]. rewrite Hw.
  unfold resolve, Err. cbn [set_Result errs].
  destruct (errs c) as [|e [|e' es]] eqn:Hes; [contradiction| |]; reflexivity.
Qed.

Lemma respond_500 (c : Context V) :
  written (W c) = false ->
  resolve edition c = (StatusInternalServerError, SetResult c None) ->
  let c' := respond json_Marshal_value json_Marshal_validation
              json_Marshal_Error edition c in
  w (W c') =
    w (W c) ++ [CallHeaderSet "Content-Type" "application/json";
                CallWriteHeader 500] /\
  Result c' = None /\
  logs c' = logs c.
Proof.
  intros Hw Hres. cbv zeta.
  rewrite respond_unwritten by assumption.
  rewrite Hres. cbn [fst snd].
  rewrite write_out_no_result by reflexivity. cbn. auto.
Qed.

(** X10.  When two or more errors were recorded, or one error that is
    neither an [*Error] nor a [*ValidationError], the policy answers 500
    with the content type and no body, and logs nothing. *)
Theorem other_errors_give_500 (c : Context V) :
  written (W c) = false ->
  (2 <= length (errs c) \/
   exists e, errs c = [e] /\
             (forall apierr, e <> ErrorPtr apierr) /\
             (forall verr, e <> ValidationErrorPtr verr)) ->
  let c' := respond json_Marshal_value json_Marshal_validation
              json_Marshal_Error edition c in
  w (W c') =
    w (W c) ++ [CallHeaderSet "Content-Type" "application/json";
                CallWriteHeader 500] /\
  Result c' = None /\
  logs c' = logs c.
Proof.
  intros Hw Hcase. apply respond_500; [exact Hw|].
  unfold resolve, Err. destruct Hcase as [Hlen | (e & He & Hna & Hnv)].
  - destruct (errs c) as [|e [|e' es]]; cbn in Hlen; try lia. reflexivity.
  - rewrite He. destruct e as [apierr|verr|es|msg]; try reflexivity.
    + now destruct (Hna apierr).
    + now destruct (Hnv verr).
Qed.

End PassingChainResponse.

(** ** [ParseBody] *)

Section ParseBodyFacts.

Context {V : Type}.
Variable json_Marshal_value : V -> string + string.
Variable json_Marshal_validation :
  Z -> string -> string -> list (FieldError V) -> string + string.
Variable json_Marshal_Error : Error -> string.
Variable edition : Variant.
Variable json_Unmarshal : string -> option string.

(** X11.  [ParseBody] returns nil exactly when the body was read and
    unmarshalled.  When a handler's only recorded error is the one that
    [ParseBody] returned and nothing was written directly, the policy
    answers 400 for a body that does not unmarshal and 500 for a body that
    could not be read, in both cases without a body. *)
Theorem ParseBody_failure_status (body : string + string) (c : Context V) :
  (snd (ParseBody json_Unmarshal body) = @None (error V) <->
   exists b, body = inl b /\ json_Unmarshal b = None) /\
  forall e,
    snd (ParseBody json_Unmarshal body) = Some e ->
    written (W c) = false ->
    errs c = [e] ->
    w (W (respond json_Marshal_value json_Marshal_validation
            json_Marshal_Error edition c)) =
      w (W c) ++ [CallHeaderSet "Content-Type" "application/json";
                  CallWriteHeader
                    match body with
                    | inl _ => 400
                    | inr _ => 500
                    end].
Proof.
  unfold ParseBody. split.
  - destruct body as [b|err]; cbn.
    + destruct (json_Unmarshal b) as [err|] eqn:Hu; cbn; split.
      * discriminate.
      * intros (b' & Hb & Hu'). inversion Hb; subst. congruence.
      * intros _. now exists b.
      * reflexivity.
    + split; [discriminate|]. intros (b & Hb & _). discriminate.
  - intros e He Hw Hes.
    destruct body as [b|err].
    + destruct (json_Unmarshal b) as [err|]; cbn in He; [|discriminate].
      inversion He; subst e.
      destruct (respond_Error_calls json_Marshal_value json_Marshal_validation
                  json_Marshal_Error edition c ErrBadRequest Hw) as (Hempty & _).
      { unfold Err. now rewrite Hes. }
      now apply Hempty.
    + cbn in He. inversion He; subst e.
      apply respond_500; [exact Hw|].
      unfold resolve, Err. now rewrite Hes.
Qed.

End ParseBodyFacts.

(** *** What was sent stays sent *)

Section WriterGrows.

Context {V : Type}.
Variable edition : Variant.

Lemma writer_grows (pre : list WriterCall) (c : Context V) :
  (exists l, w (W c) = pre ++ l) ->
  exists l, w (W (Next edition c)) = pre ++ l.
Proof.
  unfold Next. generalize (length (handlers c) - index c). intros fuel.
  revert c.
  apply (Next_fuel_invariant edition (fun c => exists l, w (W c) = pre ++ l));
    cbn; intros; auto.
  all: destruct H as (l & ->); rewrite <- app_assoc; eauto.
Qed.

Lemma written_stays (c : Context V) :
  written (W c) = true -> written (W (Next edition c)) = true.
Proof.
  unfold Next. generalize (length (handlers c) - index c). intros fuel.
  revert c.
  apply (Next_fuel_invariant edition (fun c => written (W c) = true));
    cbn; intros; auto.
Qed.

(** A handler that is reached is entered. *)
Lemma second_handler_entered (c : Context V) (h : HandlerFunc V) :
  in_range c ->
  nth_error (handlers c) (index c) = Some h ->
  exists new,
    events (Next edition c) = (events c ++ [Started (index c)]) ++ new.
Proof.
  intros Hr Hn.
  assert (Hlt : index c < length (handlers c)).
  { apply nth_error_Some. now rewrite Hn. }
  rewrite Next_unfold by assumption.
  unfold Next_body. apply Nat.leb_gt in Hlt. rewrite Hlt, Hn.
  destruct (call_balanced edition (Next edition) h
              (Next_balanced edition) (advance c)) as (inner & Ein & _).
  unfold do, invoke.
  destruct (call edition (Next edition) h (advance c)) as [c2 err].
  cbn [fst] in Ein.
  change (events (advance c)) with (events c ++ [Started (index c)]) in Ein.
  assert (Hstop : forall c3 : Context V,
            events c3 = events c2 ++ [Returned (index c) err] ->
            exists new, events c3 = (events c ++ [Started (index c)]) ++ new).
  { intros c3 ->. rewrite Ein, <- app_assoc. eauto. }
  assert (Hgo : forall c3 : Context V,
            events c3 = events c2 ++ [Returned (index c) err] ->
            exists new,
              events (Next edition c3) = (events c ++ [Started (index c)]) ++ new).
  { intros c3 E3. destruct (Next_balanced edition c3) as (rest & Er & _).
    exists (inner ++ [Returned (index c) err] ++ rest).
    rewrite Er, E3, Ein, <- !app_assoc. reflexivity. }
  destruct edition, err as [e|].
  - now apply Hstop.
  - destruct (written _); [now apply Hstop | now apply Hgo].
  - now apply Hstop.
  - now apply Hgo.
Qed.

End WriterGrows.

(** ** The CORS handlers *)

Section CORSFacts.

Context {V : Type}.
Variable json_Marshal_value : V -> string + string.
Variable json_Marshal_validation :
  Z -> string -> string -> list (FieldError V) -> string + string.
Variable json_Marshal_Error : Error -> string.
Variable edition : Variant.

(** X12.  For a request of method OPTIONS, a chain that begins with the
    handler of [CORSPreflight] answers with the two access-control
    headers, the methods and the headers each joined by a comma and a
    space, and status 200, sent before anything else; the resolution
    policy adds nothing to it.  In the context.go edition no further
    handler is entered; in the part_003 edition the handler that follows
    is still entered. *)
Theorem CORSPreflight_answers_OPTIONS (methods headers : list string)
    (r : RequestHead) (rest : list (HandlerFunc V)) :
  Method r = "OPTIONS" ->
  let preflight :=
    [CallHeaderSet "Access-Control-Allow-Methods" (String.concat ", " methods);
     CallHeaderSet "Access-Control-Allow-Headers" (String.concat ", " headers);
     CallWriteHeader 200] in
  let c := Next edition (newContext (CORSPreflight methods headers r :: rest)) in
  (exists l, w (W c) = preflight ++ l) /\
  respond json_Marshal_value json_Marshal_validation json_Marshal_Error
    edition c = c /\
  (edition = context_go ->
   w (W c) = preflight /\ started (events c) = [0]) /\
  (edition = part_003 -> rest <> [] -> In 1 (started (events c))).
Proof.
  intros Hm. cbv zeta.
  rewrite Next_unfold by (unfold in_range; cbn; lia).
  unfold Next_body. cbn [newContext handlers index length Nat.leb nth_error].
  unfold do, invoke, advance, CORSPreflight. rewrite Hm.
  cbn [String.eqb Ascii.eqb Bool.eqb call].
  unfold strings_Join.
  set (c2 := set_W _ _).
  cbn [events].
  set (c3 := set_events c2 _).
  assert (Hw3 : written (W c3) = true) by reflexivity.
  assert (Hl3 : w (W c3) =
                [CallHeaderSet "Access-Control-Allow-Methods"
                   (String.concat ", " methods);
                 CallHeaderSet "Access-Control-Allow-Headers"
                   (String.concat ", " headers);
                 CallWriteHeader 200]) by reflexivity.
  destruct edition.
  - rewrite Hw3. split; [|split; [|split]].
    + exists []. now rewrite app_nil_r.
    + apply respond_written. reflexivity.
    + intros _. split; reflexivity.
    + discriminate.
  - split; [|split; [|split]].
    + apply writer_grows. exists []. now rewrite app_nil_r.
    + apply respond_written. now apply written_stays.
    + discriminate.
    + intros _ Hrest. destruct rest as [|h1 rest']; [contradiction|].
      destruct (second_handler_entered part_003 c3 h1) as (new & ->);
        [unfold in_range; cbn; lia | reflexivity|].
      rewrite !started_app. apply in_or_app. left. apply in_or_app. right.
      now left.
Qed.

End CORSFacts.

(** ** A handler in front of a chain *)

Section Shifted.

Context {V : Type}.
Variable json_Marshal_value : V -> string + string.
Variable json_Marshal_validation :
  Z -> string -> string -> list (FieldError V) -> string + string.
Variable json_Marshal_Error : Error -> string.
Variable edition : Variant.
Variable pre : list WriterCall.
Variable m : HandlerFunc V.

Lemma shifted_call (next' next : Context V -> Context V) :
  (forall c' c, shifted pre m c' c -> shifted pre m (next' c') (next c)) ->
  forall p c' c,
    shifted pre m c' c ->
    shifted pre m (fst (call edition next' p c')) (fst (call edition next p c)) /\
    snd (call edition next' p c') = snd (call edition next p c).
Proof.
  intros Hnext.
  induction p as [err|val k IH|pg k IH|key value k IH|n k IH|b k IH|k IH|k IH
                 |k IH|k IH]; intros c' c Hs; cbn [call].
  - split; [exact Hs | reflexivity].
  - apply IH. unfold shifted in *. cbn. tauto.
  - destruct edition; apply IH; [exact Hs|]. unfold shifted in *. cbn. tauto.
  - apply IH. unfold shifted in *. cbn.
    destruct Hs as (A & B & C & D & E & F & G & H).
    rewrite C, app_assoc. tauto.
  - apply IH. unfold shifted in *. cbn.
    destruct Hs as (A & B & C & D & E & F & G & H).
    rewrite C, app_assoc. tauto.
  - apply IH. unfold shifted in *. cbn.
    destruct Hs as (A & B & C & D & E & F & G & H).
    rewrite C, app_assoc. tauto.
  - apply IH. now apply Hnext.
  - apply IH. unfold shifted in *. cbn.
    destruct Hs as (A & B & C & D & E & F & G & H).
    rewrite A. cbn. tauto.
  - assert (He : Err c = Err c').
    { unfold Err. destruct Hs as (A & B & C & D & E & F & G & H). now rewrite G. }
    rewrite He. now apply IH.
  - assert (Hr : Result c = Result c') by apply Hs.
    rewrite Hr. now apply IH.
Qed.

Lemma shifted_Next_fuel (fuel : nat) :
  forall c' c : Context V,
    shifted pre m c' c ->
    shifted pre m (Next_fuel edition fuel c') (Next_fuel edition fuel c).
Proof.
  induction fuel as [|fuel IH]; intros c' c Hs; cbn [Next_fuel]; [exact Hs|].
  unfold Next_body.
  pose proof Hs as (A & B & C & D & E & F & G & H).
  rewrite A, B. cbn [length Nat.leb nth_error].
  destruct (length (handlers c') <=? index c')%nat; [exact Hs|].
  destruct (nth_error (handlers c') (index c')) as [handler|]; [|exact Hs].
  assert (Hadv : shifted pre m (advance c') (advance c)).
  { unfold shifted, advance. cbn. rewrite B. repeat split; assumption || lia. }
  destruct (shifted_call (Next_fuel edition fuel) (Next_fuel edition fuel) IH
              handler _ _ Hadv) as (Hcall & Herr).
  unfold do, invoke.
  destruct (call edition (Next_fuel edition fuel) handler (advance c'))
    as [c2' err'].
  destruct (call edition (Next_fuel edition fuel) handler (advance c))
    as [c2 err].
  cbn [fst snd] in Hcall, Herr. subst err'.
  assert (Hret : forall i i',
            shifted pre m (set_events c2' (events c2' ++ [Returned i' err]))
                          (set_events c2 (events c2 ++ [Returned i err]))).
  { intros i i'. unfold shifted in *. cbn. exact Hcall. }
  assert (Hstop : forall c3' c3 : Context V,
            shifted pre m c3' c3 -> shifted pre m (Stop c3') (Stop c3)).
  { intros c3' c3 (A3 & B3 & C3 & D3 & E3 & F3 & G3 & H3).
    unfold shifted. cbn. rewrite A3. cbn. tauto. }
  assert (Herrs : forall (c3' c3 : Context V) e,
            shifted pre m c3' c3 ->
            shifted pre m (set_errs c3' (errs c3' ++ [e]))
                          (set_errs c3 (errs c3 ++ [e]))).
  { intros c3' c3 e (A3 & B3 & C3 & D3 & E3 & F3 & G3 & H3).
    unfold shifted. cbn. rewrite G3. tauto. }
  destruct edition, err as [e|].
  - apply Hstop, Herrs, Hret.
  - assert (Hw : written (W c2) = written (W c2')) by apply Hcall.
    cbn [set_events W]. rewrite Hw.
    destruct (written (W c2')); [apply Hstop | apply IH]; apply Hret.
  - apply Hstop, Herrs, Hret.
  - apply IH, Hret.
Qed.

Lemma shifted_Next (c' c : Context V) :
  shifted pre m c' c ->
  shifted pre m (Next edition c') (Next edition c).
Proof.
  intros Hs. unfold Next.
  pose proof Hs as (A & B & _). rewrite A, B. cbn [length Nat.sub].
  now apply shifted_Next_fuel.
Qed.

Lemma shifted_respond (c' c : Context V) :
  shifted pre m c' c ->
  shifted pre m
    (respond json_Marshal_value json_Marshal_validation json_Marshal_Error
       edition c')
    (respond json_Marshal_value json_Marshal_validation json_Marshal_Error
       edition c).
Proof.
  intros Hs.
  assert (D : written (W c) = written (W c')) by apply Hs.
  assert (F : pagination c = pagination c') by apply Hs.
  assert (G : errs c = errs c') by apply Hs.
  unfold respond. rewrite D.
  destruct (written (W c')) eqn:Hw; [exact Hs|].
  assert (Hres : fst (resolve edition c) = fst (resolve edition c') /\
                 shifted pre m (snd (resolve edition c')) (snd (resolve edition c))).
  { unfold resolve, Err. rewrite G.
    destruct (errs c') as [|e [|e' es]] eqn:He.
    - split; [reflexivity|]. cbn [snd].
      destruct edition; [exact Hs|]. rewrite F.
      destruct (pagination c') eqn:Hp; [|exact Hs].
      destruct Hs as (A1 & B1 & C1 & D1 & E1 & F1 & G1 & H1).
      unfold shifted. cbn. rewrite C1, app_assoc. tauto.
    - destruct Hs as (A1 & B1 & C1 & D1 & E1 & F1 & G1 & H1).
      destruct e as [apierr|verr|es|msg]; cbn [fst snd];
        (split; [reflexivity|]); try (unfold shifted; cbn; tauto).
      destruct (negb (Message apierr =? "")); unfold shifted; cbn; tauto.
    - destruct Hs as (A1 & B1 & C1 & D1 & E1 & F1 & G1 & H1).
      split; [reflexivity|]. unfold shifted; cbn; tauto. }
  destruct (resolve edition c) as [code c1].
  destruct (resolve edition c') as [code' c1'].
  cbn [fst snd] in Hres. destruct Hres as (-> & Hs1).
  assert (E1 : Result c1 = Result c1') by apply Hs1.
  unfold write_out. cbn [set_W Result]. rewrite E1.
  destruct (Result c1') as [result|] eqn:Hr.
  - destruct Hs1 as (A1 & B1 & C1 & D1 & _ & F1 & G1 & H1).
    destruct (json_Marshal _ _ _ result) as [b|err];
      unfold shifted; cbn; rewrite C1, ?H1, <- ?app_assoc;
      intuition congruence.
  - destruct Hs1 as (A1 & B1 & C1 & D1 & _ & F1 & G1 & H1).
    unfold shifted; cbn; rewrite C1, <- ?app_assoc; intuition congruence.
Qed.

End Shifted.

Section CORSTransparent.

Context {V : Type}.
Variable json_Marshal_value : V -> string + string.
Variable json_Marshal_validation :
  Z -> string -> string -> list (FieldError V) -> string + string.
Variable json_Marshal_Error : Error -> string.
Variable edition : Variant.


End CORSTransparent.

(** ** Routers and their sub-routers *)

Section RouterNesting.

Context {V BaseContext : Type}.
Variable json_Marshal_value : V -> string + string.
Variable json_Marshal_validation :
  Z -> string -> string -> list (FieldError V) -> string + string.
Variable json_Marshal_Error : Error -> string.
Variable edition : Variant.

Lemma Use_fields (this : Router V BaseContext) (m : HandlerFunc V) :
  router (Use this m) = router this /\
  (forall r, createContext (Use this m) r = createContext this r) /\
  Router_path (Use this m) = Router_path this /\
  middleware (Use this m) = middleware this ++ [m].
Proof.
  destruct this as [cc p t pa ms]. cbn.
  repeat split. now rewrite app_assoc.
Qed.

Lemma Uses_fields (ms : list (HandlerFunc V)) :
  forall this : Router V BaseContext,
    router (fold_left Use ms this) = router this /\
    (forall r, createContext (fold_left Use ms this) r = createContext this r) /\
    Router_path (fold_left Use ms this) = Router_path this /\
    middleware (fold_left Use ms this) = middleware this ++ ms.
Proof.
  induction ms as [|m ms IH]; intros this; cbn [fold_left].
  - rewrite app_nil_r. repeat split.
  - destruct (IH (Use this m)) as (A & B & C & D).
    destruct (Use_fields this m) as (A' & B' & C' & D').
    rewrite A, C, D, A', C', D', <- app_assoc.
    repeat split. intros r. now rewrite B, B'.
Qed.

Lemma SubRouter_fields (this : Router V BaseContext) (path : string) :
  router (SubRouter this path) = router this /\
  (forall r, createContext (SubRouter this path) r = createContext this r) /\
  Router_path (SubRouter this path) = Router_path this +++ path /\
  middleware (SubRouter this path) = middleware this.
Proof. cbn. rewrite app_nil_r. repeat split. Qed.

Lemma sub_routers_fields (levels : list (string * list (HandlerFunc V))) :
  forall root : Router V BaseContext,
    let sub := sub_routers root levels in
    router sub = router root /\
    (forall r, createContext sub r = createContext root r) /\
    Router_path sub = Router_path root +++ String.concat "" (map fst levels) /\
    middleware sub = middleware root ++ concat (map snd levels).
Proof.
  unfold sub_routers.
  induction levels as [|[path ms] levels IH]; intros root; cbn [fold_left].
  - cbn. rewrite append_nil_right, app_nil_r. repeat split.
  - destruct (IH (fold_left Use ms (SubRouter root path))) as (A & B & C & D).
    destruct (Uses_fields ms (SubRouter root path)) as (A1 & B1 & C1 & D1).
    destruct (SubRouter_fields root path) as (A2 & B2 & C2 & D2).
    cbn [fst snd] in *. cbv zeta.
    rewrite A, C, D, A1, C1, D1, A2, C2, D2.
    cbn [map fst snd concat]. rewrite concat_empty_cons.
    rewrite append_associative, <- app_assoc.
    repeat split. intros r. now rewrite B, B1, B2.
Qed.

(** X14.  A route registered on a sub-router, however deeply nested, goes
    to the route table of the root, under the concatenation of the path
    prefixes and the route's path; the chain it serves is the middleware
    of the root, then that of each level from the outermost, then the
    route's own handlers; and the hook that builds the base context is the
    one the root finds, called for each request. *)
Theorem route_on_sub_router (root : Router V BaseContext) (t : nat)
    (levels : list (string * list (HandlerFunc V)))
    (method path : string) (handlers : list (HandlerFunc V)) :
  router root = Done t ->
  exists reg,
    route json_Marshal_value json_Marshal_validation json_Marshal_Error
      edition BaseContext (sub_routers root levels) method path handlers
    = Done reg /\
    reg_table reg = t /\
    reg_method reg = method /\
    reg_path reg =
      Router_path root +++ String.concat "" (map fst levels) +++ path /\
    forall r,
      reg_handle reg r =
      match createContext root r with
      | Done _ =>
          Done (serve json_Marshal_value json_Marshal_validation
                  json_Marshal_Error edition
                  (middleware root ++ concat (map snd levels) ++ handlers))
      | Panic msg => Panic msg
      end.
Proof.
  intros Ht.
  destruct (sub_routers_fields levels root) as (A & B & C & D).
  cbv zeta in *.
  pose proof (route_outcome json_Marshal_value json_Marshal_validation
                json_Marshal_Error edition (sub_routers root levels)
                method path handlers) as Hroute.
  rewrite A, Ht in Hroute.
  eexists. split; [exact Hroute|]. cbn [reg_table reg_method reg_path reg_handle].
  rewrite C, D, append_associative, <- app_assoc.
  repeat split. intros r. unfold wrap. rewrite B.
  destruct (createContext root r); reflexivity.
Qed.

(** X15.  On the router of [NewRouter], with any middleware, and on any
    sub-router below it, [route] finds the route table and hands it the
    registration, and a request dispatched to the route never panics for
    the lack of a hook: it is answered by the chain of the middleware,
    outermost first, followed by the route's handlers.  (The checks that
    httprouter makes on the pattern are its own.) *)
Theorem NewRouter_routes_never_panic (table : nat)
    (appengine_NewContext : CreateContextFn BaseContext)
    (mws : list (HandlerFunc V))
    (levels : list (string * list (HandlerFunc V)))
    (method path : string) (handlers : list (HandlerFunc V)) :
  let root := fold_left Use mws (NewRouter table appengine_NewContext) in
  exists reg,
    route json_Marshal_value json_Marshal_validation json_Marshal_Error
      edition BaseContext (sub_routers root levels) method path handlers
    = Done reg /\
    reg_table reg = table /\
    reg_path reg = String.concat "" (map fst levels) +++ path /\
    forall r,
      reg_handle reg r =
      Done (serve json_Marshal_value json_Marshal_validation
              json_Marshal_Error edition
              (mws ++ concat (map snd levels) ++ handlers)).
Proof.
  cbv zeta.
  set (root := fold_left Use mws (NewRouter table appengine_NewContext)).
  destruct (Uses_fields mws (NewRouter table appengine_NewContext))
    as (A & B & C & D). fold root in A, B, C, D. cbn in A, C, D.
  destruct (sub_routers_fields levels root) as (A' & B' & C' & D').
  cbv zeta in *.
  pose proof (route_outcome json_Marshal_value json_Marshal_validation
                json_Marshal_Error edition (sub_routers root levels)
                method path handlers) as Hroute.
  rewrite A', A in Hroute.
  eexists. split; [exact Hroute|]. cbn [reg_table reg_method reg_path reg_handle].
  rewrite C', D', C, D, <- app_assoc. cbn [String.append].
  repeat split. intros r. unfold wrap. rewrite B', B. reflexivity.
Qed.

End RouterNesting.

(** ** The value bag *)

Section ValueBagFacts.

Context {K V : Type}.
Variable K_eq_dec : forall x y : K, {x = y} + {x <> y}.

(** X16.  In the value bag, [Get] after [Set] returns the value stored,
    [Set] leaves every other key as it was, a second [Set] under the same
    key replaces the first, and [Get] on a bag just made returns nil. *)
Theorem Values_Set_then_Get (this : Values K V) (key : K)
    (val : option (Dynamic V)) :
  let this' := Values_Set K_eq_dec this key val in
  Values_Get this' key = val /\
  (forall key', key' <> key -> this' key' = this key') /\
  (forall val' key',
     Values_Set K_eq_dec this' key val' key' =
     Values_Set K_eq_dec this key val' key') /\
  Values_Get (@Values_make K V) key = None.
Proof.
  cbv zeta. unfold Values_Get, Values_Set, Values_make.
  repeat split.
  - destruct (K_eq_dec key key) as [_|Hn]; [reflexivity | now destruct Hn].
  - intros key' Hk. destruct (K_eq_dec key' key) as [He|_];
      [now destruct Hk | reflexivity].
  - intros val' key'. now destruct (K_eq_dec key' key).
Qed.

(** X17.  A typed getter of the value bag returns something other than
    the zero value only when the value stored under the key has exactly
    its type: an [int] is not read by [GetInt64], nor an [int64] by
    [GetInt], nor either by [GetString]; each returns the zero value. *)
Theorem Values_typed_getters (this : Values K V) (key : K) :
  (Values_GetString this key <> "" ->
   this key = Some (Some (DynString (Values_GetString this key)))) /\
  (Values_GetInt this key <> 0%Z ->
   this key = Some (Some (DynInt (Values_GetInt this key)))) /\
  (Values_GetInt64 this key <> 0%Z ->
   this key = Some (Some (DynInt64 (Values_GetInt64 this key)))) /\
  (forall n,
     let this' := Values_Set K_eq_dec this key (Some (DynInt n)) in
     Values_GetInt this' key = n /\
     Values_GetInt64 this' key = 0%Z /\
     Values_GetString this' key = "") /\
  (forall n,
     let this' := Values_Set K_eq_dec this key (Some (DynInt64 n)) in
     Values_GetInt64 this' key = n /\
     Values_GetInt this' key = 0%Z /\
     Values_GetString this' key = "") /\
  (forall s,
     let this' := Values_Set K_eq_dec this key (Some (DynString s)) in
     Values_GetString this' key = s /\
     Values_GetInt this' key = 0%Z /\
     Values_GetInt64 this' key = 0%Z).
Proof.
  unfold Values_GetString, Values_GetInt, Values_GetInt64, Values_Set.
  repeat split;
    try (destruct (this key) as [[[s|n|n|v]|]|]; intros H;
         try reflexivity; now destruct H);
    destruct (K_eq_dec key key) as [_|Hn]; try reflexivity; now destruct Hn.
Qed.

End ValueBagFacts.

(** ** Typed parameters *)

Section TypedParamsFacts.

Variable strconv_Atoi : string -> option Z.
Variable strconv_ParseInt_10_64 : string -> option Z.
Variable time_Time : Type.
Variable time_Parse : string -> string -> time_Time.

(** X18.  When the path has a non-empty parameter under the key, the
    typed getters [GetInt], [GetInt64] and [GetDate] parse that value
    and never the query string: a path value that does not parse gives
    0, even if the query string holds a number under the same key. *)
Theorem typed_getters_read_the_path_first (this : Params) (key v : string)
    (DateFormat : string) :
  path_param (Params_p this) key = Some v ->
  v <> "" ->
  Params_GetInt strconv_Atoi this key =
    match strconv_Atoi v with Some n => n | None => 0%Z end /\
  Params_GetInt64 strconv_ParseInt_10_64 this key =
    match strconv_ParseInt_10_64 v with Some n => n | None => 0%Z end /\
  Params_GetDate time_Time time_Parse DateFormat this key =
    time_Parse DateFormat v.
Proof.
  intros Hp Hv.
  unfold Params_GetInt, Params_GetInt64, Params_GetDate. cbv zeta.
  rewrite (Params_Get_path_wins this key v Hp Hv).
  apply String.eqb_neq in Hv. rewrite Hv. cbn [negb]. repeat split.
Qed.

(** X19.  For a key that is neither a path parameter nor in the query
    string, [Get] returns the empty string and [GetInt] and [GetInt64]
    return 0, whatever the parsers would make of the empty string. *)
Theorem typed_getters_missing_key (this : Params) (key : string) :
  ByName (Params_p this) key = "" ->
  URL_Query (Params_r this) key = [] ->
  Params_Get this key = "" /\
  Params_GetInt strconv_Atoi this key = 0%Z /\
  Params_GetInt64 strconv_ParseInt_10_64 this key = 0%Z.
Proof.
  intros Hp Hq.
  assert (Hg : Params_Get this key = "").
  { unfold Params_Get, url_Values_Get. now rewrite Hp, Hq. }
  unfold Params_GetInt, Params_GetInt64. cbv zeta. rewrite Hg.
  repeat split.
Qed.

End TypedParamsFacts.

(** ** Validation errors *)

Section ValidationErrorFacts.

Context {V : Type}.

Lemma AddErrorDetailed_all (fs : list (FieldError V)) :
  forall this : ValidationError V,
    Errors (fold_left
              (fun verr f =>
                 AddErrorDetailed verr (FieldName f) (ErrorCode f) (Data f)
                   (FieldMessage f))
              fs this) = Errors this ++ fs.
Proof.
  induction fs as [|f fs IH]; intros this; cbn [fold_left].
  - now rewrite app_nil_r.
  - rewrite IH. unfold AddErrorDetailed. cbn [Errors].
    rewrite <- app_assoc. now destruct f.
Qed.

(** X20.  A validation error built from [NewValidationError] by adding
    field errors one by one holds exactly these field errors, in the order
    in which they were added; [HasErrors] is true exactly when at least
    one was added; [AddError] adds a field error with neither data nor
    message at the end. *)
Theorem ValidationError_collects_in_order (fs : list (FieldError V)) :
  let verr :=
    fold_left
      (fun verr f =>
         AddErrorDetailed verr (FieldName f) (ErrorCode f) (Data f)
           (FieldMessage f))
      fs NewValidationError in
  Errors verr = fs /\
  (HasErrors verr = true <-> fs <> []) /\
  forall key errorCode,
    Errors (AddError verr key errorCode) =
      fs ++ [mkFieldError key errorCode "" None] /\
    HasErrors (AddError verr key errorCode) = true.
Proof.
  cbv zeta.
  pose proof (AddErrorDetailed_all fs NewValidationError) as H.
  cbn [NewValidationError Errors app] in H.
  set (verr := fold_left _ fs _) in *.
  split; [exact H|]. split.
  - unfold HasErrors. rewrite H. destruct fs; cbn; split; congruence.
  - intros key errorCode. unfold AddError, AddErrorDetailed, HasErrors.
    cbn [Errors]. rewrite H.
    split; [reflexivity|]. rewrite length_app.
    apply Nat.ltb_lt. cbn. lia.
Qed.

End ValidationErrorFacts.

(** ** The further properties on concrete requests *)


Lemma direct_write_silences_respond_witness :
  let c := set_W (newContext [Sample.sets_ok])
                 (mkResponseWriter [CallWriteHeader 204] true) in
  written (W c) = true /\
  written (W (Next context_go c)) = true /\
  Sample.respond' context_go (Next context_go c) = Next context_go c.
Proof.
  intros c. split; [reflexivity|].
  exact (direct_write_silences_respond Sample.marshal_value
           Sample.marshal_validation Sample.marshal_Error context_go c eq_refl).
Defined.

Lemma error_response_drops_result_witness :
  let c := set_errs (newContext []) [ErrorPtr ErrNotFound] in
  written (W c) = false /\
  errs c <> [] /\
  Sample.respond' context_go
    (set_Result c (Some (UserValue (Sample.GoString "ok")))) =
  Sample.respond' context_go c.
Proof.
  intros c.
  assert (He : errs c <> []) by discriminate.
  split; [reflexivity|]. split; [exact He|].
  exact (error_response_drops_result Sample.marshal_value
           Sample.marshal_validation Sample.marshal_Error context_go c
           (Some (UserValue (Sample.GoString "ok"))) eq_refl He).
Defined.

Lemma other_errors_give_500_witness :
  let c := set_errs (newContext [])
             [OtherError "boom"; ErrorPtr ErrNotFound] in
  written (W c) = false /\
  2 <= length (errs c) /\
  w (W (Sample.respond' context_go c)) =
    [CallHeaderSet "Content-Type" "application/json"; CallWriteHeader 500].
Proof.
  intros c.
  assert (Hl : 2 <= length (errs c)) by (cbn; lia).
  split; [reflexivity|]. split; [exact Hl|].
  exact (proj1 (other_errors_give_500 Sample.marshal_value
                  Sample.marshal_validation Sample.marshal_Error context_go c
                  eq_refl (or_introl Hl))).
Defined.

Lemma ParseBody_failure_status_witness :
  let c := set_errs (newContext []) [ErrorPtr ErrBadRequest] in
  snd (ParseBody Examples.Unmarshal (inl "{")) =
    Some (@ErrorPtr Sample.GoValue ErrBadRequest) /\
  w (W (Sample.respond' part_003 c)) =
    [CallHeaderSet "Content-Type" "application/json"; CallWriteHeader 400].
Proof.
  intros c. split; [reflexivity|].
  exact (proj2 (ParseBody_failure_status Sample.marshal_value
                  Sample.marshal_validation Sample.marshal_Error part_003
                  Examples.Unmarshal (inl "{") c)
           (ErrorPtr ErrBadRequest) eq_refl eq_refl eq_refl).
Defined.

Lemma CORSPreflight_answers_OPTIONS_witness :
  let c := Next part_003
             (newContext
                [CORSPreflight ["GET"; "POST"] ["Content-Type"]
                   Examples.preflight;
                 Sample.sets_ok]) in
  Method Examples.preflight = "OPTIONS" /\
  (exists l,
     w (W c) =
       [CallHeaderSet "Access-Control-Allow-Methods" "GET, POST";
        CallHeaderSet "Access-Control-Allow-Headers" "Content-Type";
        CallWriteHeader 200] ++ l) /\
  Sample.respond' part_003 c = c /\
  In 1 (started (events c)).
Proof.
  intros c. split; [reflexivity|].
  destruct (CORSPreflight_answers_OPTIONS Sample.marshal_value
              Sample.marshal_validation Sample.marshal_Error part_003
              ["GET"; "POST"] ["Content-Type"] Examples.preflight
              [Sample.sets_ok] eq_refl) as (A & B & _ & D).
  split; [exact A|]. split; [exact B|].
  apply D; [reflexivity | discriminate].
Defined.

Lemma route_on_sub_router_witness :
  router Examples.root = Done 0 /\
  exists reg,
    route Sample.marshal_value Sample.marshal_validation Sample.marshal_Error
      context_go unit
      (sub_routers Examples.root [("/api", [Examples.tags_request])])
      "GET" "/ping" [Sample.sets_ok] = Done reg /\
    reg_path reg = "/api/ping" /\
    reg_handle reg Sample.any_request =
      Done (Sample.serve' context_go [Examples.tags_request; Sample.sets_ok]).
Proof.
  split; [reflexivity|].
  destruct (route_on_sub_router Sample.marshal_value Sample.marshal_validation
              Sample.marshal_Error context_go Examples.root 0
              [("/api", [Examples.tags_request])] "GET" "/ping"
              [Sample.sets_ok] eq_refl) as (reg & A & _ & _ & C & D).
  exists reg. split; [exact A|]. split; [exact C|]. exact (D Sample.any_request).
Defined.

Lemma Values_typed_getters_witness :
  let bag := Values_Set string_dec (@Values_make string Sample.GoValue)
               "user" (Some (DynInt 7)) in
  Values_GetInt bag "user" = 7%Z /\
  Values_GetInt64 bag "user" = 0%Z /\
  Values_GetString bag "user" = "".
Proof.
  intros bag.
  destruct (Values_typed_getters string_dec
              (@Values_make string Sample.GoValue) "user")
    as (_ & _ & _ & H & _).
  exact (H 7%Z).
Defined.

Lemma typed_getters_read_the_path_first_witness :
  path_param (Params_p Examples.item_abc) "id" = Some "abc" /\
  Params_Get Examples.item_abc "id" = "abc" /\
  url_Values_Get (URL_Query (Params_r Examples.item_abc)) "id" = "9" /\
  Params_GetInt Examples.Atoi Examples.item_abc "id" = 0%Z.
Proof.
  split; [reflexivity|]. split; [reflexivity|]. split; [reflexivity|].
  assert (Hv : "abc" <> "") by discriminate.
  exact (proj1 (typed_getters_read_the_path_first Examples.Atoi Examples.Atoi
                  string (fun _ v => v) Examples.item_abc "id" "abc"
                  "2006-01-02" eq_refl Hv)).
Defined.

Lemma typed_getters_missing_key_witness :
  ByName (Params_p Examples.item_abc) "page" = "" /\
  URL_Query (Params_r Examples.item_abc) "page" = [] /\
  Params_GetInt Examples.Atoi Examples.item_abc "page" = 0%Z.
Proof.
  split; [reflexivity|]. split; [reflexivity|].
  exact (proj1 (proj2 (typed_getters_missing_key Examples.Atoi Examples.Atoi
                         Examples.item_abc "page" eq_refl eq_refl))).
Defined.
